(** * The todo-file kanban board of get-shit-done/tools/kanban.js

    A shallow embedding of the Todo Store ([parseFrontmatter], [readTodos]),
    of the id validation ([safeBasename]) and of the two API routes of the
    request handler in [main] (GET /api/todos, POST /api/move), followed by
    the properties of the board that the specification states.

    Modelling conventions.
    - A JavaScript string is a [string]: a sequence of code units, each one
      below 256.  Within that range the regular-expression classes are the
      ECMAScript ones: [\s] is TAB, LF, VT, FF, CR, SPACE and NBSP, and [.]
      is every unit but LF and CR.
    - At the path of each of the two managed directories there is nothing,
      a directory, or something that is not a directory.  A directory has
      its read and write permissions and its entries; an entry is a regular
      file or a sub-directory.  [path.join dir name] for a single-segment
      [name] is the entry [name] of [dir].
    - [fs.*Sync] calls run in a small monad [FS] that threads the disk and a
      log of the calls made, and that can throw; [try ... catch] is
      [try_catch].  The failures modelled are those of POSIX: listing what
      is not a directory or a directory without read permission, reading an
      entry that is a directory or is not readable, creating a directory
      where something else is, and renaming into a missing or read-only
      directory or onto a directory.  As Node documents for [fs.rename], a
      file at the new path is overwritten.
    - The order in which [fs.readdirSync] gives the names is not specified
      and is not the same from one call to the next.
    - [Array.prototype.sort] without a comparator orders strings by code
      units; that order is [String.le]. *)

From Stdlib Require Import Strings.String Strings.Ascii QArith Qround.
From stdpp Require Import base option list sorting strings gmap fin_maps pretty.

Close Scope Q_scope.

Open Scope string_scope.

(** ** Code units and character classes *)

Definition code_unit (c : ascii) : nat := nat_of_ascii c.

Definition in_range (lo hi : nat) (c : ascii) : bool :=
  (lo <=? code_unit c)%nat && (code_unit c <=? hi)%nat.

(** [a-zA-Z0-9] *)
Definition is_alnum (c : ascii) : bool :=
  in_range 97 122 c || in_range 65 90 c || in_range 48 57 c.

(** [a-zA-Z0-9._-], the class of [safeBasename] *)
Definition is_id_char (c : ascii) : bool :=
  is_alnum c || Ascii.eqb c "." || Ascii.eqb c "_" || Ascii.eqb c "-".

(** [a-zA-Z0-9_-], the class of a front-matter key *)
Definition is_key_char (c : ascii) : bool :=
  is_alnum c || Ascii.eqb c "_" || Ascii.eqb c "-".

(** [\s]; also the units removed by [String.prototype.trim] *)
Definition is_space (c : ascii) : bool :=
  in_range 9 13 c || (code_unit c =? 32)%nat || (code_unit c =? 160)%nat.

(** LF and CR, the line terminators that [.] refuses *)
Definition is_line_terminator (c : ascii) : bool :=
  (code_unit c =? 10)%nat || (code_unit c =? 13)%nat.

Definition is_dot_char (c : ascii) : bool := negb (is_line_terminator c).

Definition is_slash (c : ascii) : bool := Ascii.eqb c "/".

Definition LF : ascii := ascii_of_nat 10.
Definition CR : ascii := ascii_of_nat 13.

(** ** String primitives of the JavaScript runtime *)

Fixpoint all_chars (p : ascii -> bool) (s : string) : bool :=
  match s with
  | EmptyString => true
  | String c r => p c && all_chars p r
  end.

Fixpoint takeWhile (p : ascii -> bool) (s : string) : string :=
  match s with
  | EmptyString => EmptyString
  | String c r => if p c then String c (takeWhile p r) else EmptyString
  end.

Fixpoint dropWhile (p : ascii -> bool) (s : string) : string :=
  match s with
  | EmptyString => EmptyString
  | String c r => if p c then dropWhile p r else s
  end.

(** [s.startsWith(p)] *)
Definition startsWith (s p : string) : bool := String.prefix p s.

(** [s.endsWith(x)]: some tail of [s] is [x] *)
Fixpoint endsWith (s x : string) : bool :=
  String.eqb s x ||
  match s with
  | EmptyString => false
  | String _ r => endsWith r x
  end.

(** [s.indexOf(x, from)], [None] for -1 *)
Definition indexOf (s x : string) (from : nat) : option nat :=
  String.index from x s.

(** [s.slice(a, b)] for [0 <= a], [0 <= b] *)
Definition slice (s : string) (a b : nat) : string :=
  String.substring a (b - a) s.

(** [s.slice(a)] *)
Fixpoint slice_from (s : string) (a : nat) : string :=
  match a, s with
  | O, _ => s
  | S a', String _ r => slice_from r a'
  | S _, EmptyString => EmptyString
  end.

(** [s.trim()] *)
Definition trim (s : string) : string :=
  String.rev (dropWhile is_space (String.rev (dropWhile is_space s))).

(** [s.split(/\r?\n/)]: [cur] is the piece being read, written backwards *)
Fixpoint split_lines_go (cur : string) (s : string) : list string :=
  match s with
  | EmptyString => [String.rev cur]
  | String c r =>
      if Ascii.eqb c LF then String.rev cur :: split_lines_go EmptyString r
      else if Ascii.eqb c CR then
        match r with
        | String c' r' =>
            if Ascii.eqb c' LF
            then String.rev cur :: split_lines_go EmptyString r'
            else split_lines_go (String c cur) r
        | EmptyString => split_lines_go (String c cur) r
        end
      else split_lines_go (String c cur) r
  end.

Definition split_lines (s : string) : list string :=
  split_lines_go EmptyString s.

(** [s.replace(/\.md$/, '')] *)
Fixpoint strip_md (s : string) : string :=
  if String.eqb s ".md" then EmptyString
  else match s with
       | EmptyString => EmptyString
       | String c r => String c (strip_md r)
       end.

(** ** [path.basename] and [path.join] (POSIX)

    Node scans the path from its end: trailing separators are skipped, then
    units are taken up to the next separator. *)
Definition basename (p : string) : string :=
  String.rev (takeWhile (fun c => negb (is_slash c))
                (dropWhile is_slash (String.rev p))).

Definition path_join (dir name : string) : string := dir ++ "/" ++ name.

(** ** [safeBasename]

    [id_pattern] is the test of [/^[a-zA-Z0-9._-]+\.md$/]: one unit of the
    class, then [id_pattern_rest] tries, at each position, to finish with
    the literal [.md] at the end of the input or to take one more unit. *)
Fixpoint id_pattern_rest (s : string) : bool :=
  String.eqb s ".md" ||
  match s with
  | EmptyString => false
  | String c r => is_id_char c && id_pattern_rest r
  end.

Definition id_pattern (s : string) : bool :=
  match s with
  | EmptyString => false
  | String c r => is_id_char c && id_pattern_rest r
  end.

Definition safeBasename (name : string) : option string :=
  let base := basename name in
  if negb (String.eqb base name) then None
  else if negb (id_pattern base) then None
  else Some base.

(** ** [parseFrontmatter]

    A front-matter value is a string or an array of strings. *)
Inductive fmvalue :=
| Scalar (s : string)
| Items (l : list string).

(** The object [frontmatter]: its own properties and, once a line
    [__proto__:] with an empty value has been read, the array that the
    assignment [frontmatter['__proto__'] = []] installed as its prototype.
    Assigning a string to [__proto__] does nothing. *)
Record jsobject := { own : gmap string fmvalue; proto : option (list string) }.

Definition empty_object : jsobject := {| own := ∅; proto := None |}.

(** [o[k] = v] *)
Definition obj_set (o : jsobject) (k : string) (v : fmvalue) : jsobject :=
  if String.eqb k "__proto__" then
    match v with
    | Items l => {| own := own o; proto := Some l |}
    | Scalar _ => o
    end
  else {| own := <[k := v]> (own o); proto := proto o |}.

(** [o[k]] when [Array.isArray(o[k])], for a key [k] that was assigned *)
Definition obj_get_array (o : jsobject) (k : string) : option (list string) :=
  if String.eqb k "__proto__" then proto o
  else match own o !! k with
       | Some (Items l) => Some l
       | _ => None
       end.

(** [o[k].push(x)] on the array [o[k]] *)
Definition obj_push (o : jsobject) (k : string) (x : string) : jsobject :=
  match obj_get_array o k with
  | Some l => obj_set o k (Items (l ++ [x]))
  | None => o
  end.

(** [o.name] for a name that no prototype defines *)
Definition obj_field (o : jsobject) (name : string) : option fmvalue :=
  own o !! name.

(** The first pattern of the loop: at the start of the line a key (one or
    more units of [a-zA-Z0-9_-]) and a colon, then white space, then a value
    of units that are not line terminators, up to the end of the line.  The
    result is the pair of the two groups, [m[1]] and [m[2]].  The key is the
    longest run of key units, since the colon is not one; the white space
    taken is the longest run, and giving some of it back to the value group
    cannot help that group reach the end of the line. *)
Definition match_key_line (line : string) : option (string * string) :=
  match takeWhile is_key_char line, dropWhile is_key_char line with
  | String k ks, String c rest =>
      if Ascii.eqb c ":" then
        let value := dropWhile is_space rest in
        if all_chars is_dot_char value then Some (String k ks, value) else None
      else None
  | _, _ => None
  end.

(** The second pattern: white space, a dash, white space, then a value of
    units that are not line terminators, up to the end of the line.  The
    result is the group [item[1]]. *)
Definition match_item_line (line : string) : option string :=
  match dropWhile is_space line with
  | String c rest =>
      if Ascii.eqb c "-" then
        let value := dropWhile is_space rest in
        if all_chars is_dot_char value then Some value else None
      else None
  | EmptyString => None
  end.

(** One turn of the loop over the lines; the state is [frontmatter] and
    [currentKey]. *)
Definition fm_step (st : jsobject * option string) (line : string)
  : jsobject * option string :=
  match match_key_line line with
  | Some (key, value) =>
      (obj_set (fst st) key
         (if String.eqb value "" then Items [] else Scalar value),
       Some key)
  | None =>
      match match_item_line line, snd st with
      | Some x, Some key => (obj_push (fst st) key x, snd st)
      | _, _ => st
      end
  end.

Definition fm_lines (lines : list string) : jsobject :=
  fst (fold_left fm_step lines (empty_object, None)).

Record parsed := { frontmatter : jsobject; body : string }.

Definition parseFrontmatter (md : string) : parsed :=
  if negb (startsWith md "---") then {| frontmatter := empty_object; body := md |}
  else match indexOf md (String LF "---") 3 with
       | None => {| frontmatter := empty_object; body := md |}
       | Some e =>
           let fmRaw := trim (slice md 3 e) in
           {| frontmatter := fm_lines (split_lines fmRaw);
              body := slice_from md (e + 4) |}
       end.

(** ** The TodoItem *)

Inductive status := pending | done.

#[global] Instance status_eq_dec : EqDecision status.
Proof. solve_decision. Defined.

Definition other (s : status) : status :=
  match s with pending => done | done => pending end.

Record TodoItem := {
  id : string;
  item_status : status;
  title : string;
  area : string;
  created : string;
  files : list string;
  path : string
}.

(** [(v || '').toString()]: an array prints as its items joined by commas *)
Definition field_text (v : option fmvalue) : string :=
  match v with
  | None => ""
  | Some (Scalar s) => s
  | Some (Items l) => String.concat "," l
  end.

(** [a || b] on strings *)
Definition or_else (a b : string) : string :=
  if String.eqb a "" then b else a.

(** The body of the callback of [files.map] once [md] is known *)
Definition todo_of (dirPath : string) (st : status) (file md : string) : TodoItem :=
  let fm := frontmatter (parseFrontmatter md) in
  {| id := file;
     item_status := st;
     title := or_else (trim (field_text (obj_field fm "title"))) (strip_md file);
     area := or_else (trim (field_text (obj_field fm "area"))) "general";
     created := or_else (trim (field_text (obj_field fm "created"))) "";
     files := match obj_field fm "files" with
              | Some (Items l) => l
              | _ => []
              end;
     path := path_join dirPath file |}.

(** ** The disk

    An entry of a managed directory is a regular file, with its content and
    whether this process may read it, or a sub-directory, empty or not. *)
Inductive node :=
| File (readable : bool) (data : string)
| Dir (empty : bool).

(** A directory: whether this process may list it (read permission) and
    change its entries (write permission), and the entries.  Search
    permission is taken as given. *)
Record directory := {
  listable : bool;
  writable : bool;
  entries : gmap string node
}.

(** What is at the path of a managed directory: nothing, something that is
    not a directory (a regular file, say), or a directory. *)
Inductive place :=
| Nothing
| NotADirectory
| Directory (x : directory).

Record disk := { pendingDir : place; doneDir : place }.

Definition place_of (dk : disk) (d : status) : place :=
  match d with pending => pendingDir dk | done => doneDir dk end.

(** The managed directory of [d], when there is one *)
Definition get_dir (dk : disk) (d : status) : option directory :=
  match place_of dk d with
  | Directory x => Some x
  | _ => None
  end.

Definition set_dir (dk : disk) (d : status) (x : directory) : disk :=
  match d with
  | pending => {| pendingDir := Directory x; doneDir := doneDir dk |}
  | done => {| pendingDir := pendingDir dk; doneDir := Directory x |}
  end.

(** The entry [name] of the directory of [d] *)
Definition get_entry (dk : disk) (d : status) (name : string) : option node :=
  x ← get_dir dk d; entries x !! name.

Definition remove_entry (dk : disk) (d : status) (name : string) : disk :=
  match get_dir dk d with
  | Some x => set_dir dk d {| listable := listable x; writable := writable x;
                              entries := delete name (entries x) |}
  | None => dk
  end.

Definition put_entry (dk : disk) (d : status) (name : string) (n : node) : disk :=
  match get_dir dk d with
  | Some x => set_dir dk d {| listable := listable x; writable := writable x;
                              entries := <[name := n]> (entries x) |}
  | None => dk
  end.

(** Path text of a managed directory under the resolved working directory
    [root]: [path.join(root, '.planning', 'todos', ...)] *)
Definition dir_path (root : string) (d : status) : string :=
  (if String.eqb root "/" then "" else root) ++
  match d with
  | pending => "/.planning/todos/pending"
  | done => "/.planning/todos/done"
  end.

(** ** The monad of [fs] calls *)

Inductive error :=
| ENOENT | EACCES | EISDIR | ENOTDIR | ENOTEMPTY | EEXIST
| TypeError
| InvalidURL
| NotPrimitive.

(** [e.message], cut after the description: Node goes on with the call and
    its paths.  It is never empty. *)
Definition message (e : error) : string :=
  match e with
  | ENOENT => "ENOENT: no such file or directory"
  | EACCES => "EACCES: permission denied"
  | EISDIR => "EISDIR: illegal operation on a directory"
  | ENOTDIR => "ENOTDIR: not a directory"
  | ENOTEMPTY => "ENOTEMPTY: directory not empty"
  | EEXIST => "EEXIST: file already exists"
  | TypeError => "Cannot read properties of null"
  | InvalidURL => "Invalid URL"
  | NotPrimitive => "Cannot convert object to primitive value"
  end.

Inductive location :=
| AtDir (d : status)
| AtEntry (d : status) (name : string).

Inductive event :=
| ExistsSync (p : location)
| ReaddirSync (d : status)
| ReadFileSync (d : status) (name : string)
| RenameSync (d1 : status) (n1 : string) (d2 : status) (n2 : string).

Record world := { fs : disk; log : list event }.

Inductive outcome (A : Type) :=
| Ret (a : A)
| Throw (e : error).
Arguments Ret {A} a.
Arguments Throw {A} e.

Definition FS (A : Type) : Type := world -> outcome A * world.

Definition ret {A} (a : A) : FS A := fun w => (Ret a, w).

Definition throw {A} (e : error) : FS A := fun w => (Throw e, w).

Definition bind {A B} (m : FS A) (k : A -> FS B) : FS B :=
  fun w =>
    match m w with
    | (Ret a, w') => k a w'
    | (Throw e, w') => (Throw e, w')
    end.

Definition try_catch {A} (m : FS A) (handler : error -> FS A) : FS A :=
  fun w =>
    match m w with
    | (Ret a, w') => (Ret a, w')
    | (Throw e, w') => handler e w'
    end.

Notation "'let*' x ':=' m 'in' k" := (bind m (fun x => k))
  (at level 10, x name, m at level 100, k at level 200).

Fixpoint mapM {A B} (f : A -> FS B) (l : list A) : FS (list B) :=
  match l with
  | [] => ret []
  | a :: r => let* b := f a in let* bs := mapM f r in ret (b :: bs)
  end.

(** A call is logged, then it answers from the disk. *)
Definition call {A} (e : event) (answer : disk -> outcome A * disk) : FS A :=
  fun w =>
    let (r, dk) := answer (fs w) in
    (r, {| fs := dk; log := log w ++ [e] |}).

Definition existsSync (p : location) : FS bool :=
  call (ExistsSync p) (fun dk =>
    (Ret match p with
         | AtDir d => match place_of dk d with Nothing => false | _ => true end
         | AtEntry d name => bool_decide (is_Some (get_entry dk d name))
         end, dk)).

(** The order in which a directory gives its names is not specified, and
    two calls need not agree on it.  Here a call starts the enumeration at
    a place that moves with the number of [fs] calls made before it. *)
Definition enumerate (calls : nat) (x : directory) : list string :=
  rotate calls (map_to_list (entries x)).*1.

(** [fs.readdirSync]: it throws on a path that holds nothing, on one that
    holds something else than a directory, and on a directory that this
    process may not list. *)
Definition readdirSync (d : status) : FS (list string) :=
  fun w =>
    (match place_of (fs w) d with
     | Directory x =>
         if listable x then Ret (enumerate (length (log w)) x) else Throw EACCES
     | NotADirectory => Throw ENOTDIR
     | Nothing => Throw ENOENT
     end,
     {| fs := fs w; log := log w ++ [ReaddirSync d] |}).

Definition readFileSync (d : status) (name : string) : FS string :=
  call (ReadFileSync d name) (fun dk =>
    (match get_entry dk d name with
     | Some (File true data) => Ret data
     | Some (File false _) => Throw EACCES
     | Some (Dir _) => Throw EISDIR
     | None =>
         Throw match place_of dk d with NotADirectory => ENOTDIR | _ => ENOENT end
     end, dk)).

(** Why [rename(2)] of the node [src] onto what is at the new path fails *)
Definition clash (src : node) (dst : option node) : option error :=
  match src, dst with
  | _, None => None
  | File _ _, Some (File _ _) => None
  | File _ _, Some (Dir _) => Some EISDIR
  | Dir _, Some (File _ _) => Some ENOTDIR
  | Dir _, Some (Dir true) => None
  | Dir _, Some (Dir false) => Some ENOTEMPTY
  end.

(** The error of [rename(2)] from entry [n1] of [d1] to entry [n2] of [d2],
    or the node that moves.  Renaming an entry to itself succeeds and
    changes nothing. *)
Definition rename_check (dk : disk) (d1 : status) (n1 : string)
    (d2 : status) (n2 : string) : error + node :=
  match place_of dk d1, place_of dk d2 with
  | Directory x1, Directory x2 =>
      match entries x1 !! n1 with
      | None => inl ENOENT
      | Some src =>
          if bool_decide (d1 = d2 /\ n1 = n2) then inr src
          else if negb (writable x1 && writable x2) then inl EACCES
          else match clash src (entries x2 !! n2) with
               | Some e => inl e
               | None => inr src
               end
      end
  | NotADirectory, _ | Directory _, NotADirectory => inl ENOTDIR
  | Nothing, _ | Directory _, Nothing => inl ENOENT
  end.

(** [fs.renameSync]: one step that takes the node out of its old place and
    puts it at the new one, replacing what was there; on an error the disk
    is as it was. *)
Definition renameSync (d1 : status) (n1 : string) (d2 : status) (n2 : string)
  : FS unit :=
  call (RenameSync d1 n1 d2 n2) (fun dk =>
    match rename_check dk d1 n1 d2 n2 with
    | inl e => (Throw e, dk)
    | inr src => (Ret tt, put_entry (remove_entry dk d1 n1) d2 n2 src)
    end).

(** ** [readTodos] *)

Definition is_md (f : string) : bool := endsWith f ".md".

Definition readTodos (root : string) (dir : status) (st : status)
  : FS (list TodoItem) :=
  let* present := existsSync (AtDir dir) in
  if negb present then ret []
  else
    let* names := readdirSync dir in
    let files := merge_sort String.le (filter (fun f => is_md f = true) names) in
    mapM (fun file =>
            let* md := try_catch (readFileSync dir file) (fun _ => ret "") in
            ret (todo_of (dir_path root dir) st file md))
         files.

(** ** The request handler of [main] *)

(** A value that [JSON.parse] returns.  A number is kept as the text that
    [String] gives for it ([0], [1.5], [1e+21], [Infinity]): the text
    determines the number but for the sign of zero, which nothing in the
    handler tells apart.  An object is kept as its members in the order of
    the text. *)
#[warnings="-register-all"]
Inductive jsvalue :=
| JNull
| JBool (b : bool)
| JNumber (shown : string)
| JString (s : string)
| JArray (items : list jsvalue)
| JObject (members : list (string * jsvalue)).

(** The own property [name] of a parsed object: of two members with the
    same name the later one is kept. *)
Fixpoint member (name : string) (members : list (string * jsvalue)) : option jsvalue :=
  match members with
  | [] => None
  | (k, v) :: rest =>
      match member name rest with
      | Some v' => Some v'
      | None => if String.eqb k name then Some v else None
      end
  end.

(** [v] as a condition: [null], [false], zero and the empty string are
    falsy, every array and object is truthy. *)
Definition js_truthy (v : jsvalue) : bool :=
  match v with
  | JNull => false
  | JBool b => b
  | JNumber shown => negb (String.eqb shown "0")
  | JString s => negb (String.eqb s "")
  | JArray _ | JObject _ => true
  end.

(** [String(v)], [None] when it throws.  An array is joined with commas,
    [null] items giving the empty string.  A parsed object has no callable
    property of its own: it prints through [Object.prototype.toString]
    unless it has a member named [toString], which hides that method, and
    then no conversion is left and a TypeError is thrown. *)
Fixpoint js_String (v : jsvalue) : option string :=
  match v with
  | JNull => Some "null"
  | JBool b => Some (if b then "true" else "false")
  | JNumber shown => Some shown
  | JString s => Some s
  | JArray items =>
      (fix join (l : list jsvalue) : option string :=
         match l with
         | [] => Some ""
         | x :: rest =>
             match match x with JNull => Some "" | _ => js_String x end with
             | Some s =>
                 match rest with
                 | [] => Some s
                 | _ :: _ =>
                     match join rest with
                     | Some r => Some (s ++ "," ++ r)
                     | None => None
                     end
                 end
             | None => None
             end
         end) items
  | JObject members =>
      match member "toString" members with
      | Some _ => None
      | None => Some "[object Object]"
      end
  end.

(** The body as the move route gets it: [readBody] failed with a message,
    [JSON.parse] threw, or the value it returned (for an empty body, the
    value of the text of an empty object) *)
Inductive request_body :=
| BodyFailed (msg : string)
| BodyNotJSON
| BodyJSON (data : jsvalue).

(** The request once [new URL] has given its path *)
Record request := { method : string; pathname : string; req_body : request_body }.

Inductive payload :=
| Html
| Text (s : string)
| Todos (pending_items done_items : list TodoItem)
| Ok
| Error (msg : string).

Record response := { code : nat; content : payload }.

Definition json (c : nat) (p : payload) : response := {| code := c; content := p |}.
Definition text (c : nat) (p : payload) : response := {| code := c; content := p |}.

(** [to === 'pending'] and [to === 'done'] *)
Definition parse_status (to : string) : option status :=
  if String.eqb to "pending" then Some pending
  else if String.eqb to "done" then Some done
  else None.

Definition api_todos (root : string) : FS response :=
  let* p := readTodos root pending pending in
  let* d := readTodos root done done in
  ret (json 200 (Todos p d)).

(** [data.name] for [name] one of [id] and [to], which no prototype
    defines: reading it from [null] throws; a value that is not an object
    made of members has no such property. *)
Definition read_property (data : jsvalue) (name : string) : FS (option jsvalue) :=
  match data with
  | JNull => throw TypeError
  | JObject members => ret (member name members)
  | _ => ret None
  end.

(** [String(v || '')], for [v] a property that was read *)
Definition string_or_empty (v : option jsvalue) : FS string :=
  match v with
  | Some x =>
      if js_truthy x then
        match js_String x with
        | Some s => ret s
        | None => throw NotPrimitive
        end
      else ret ""
  | None => ret ""
  end.

Definition api_move (body : request_body) : FS response :=
  match body with
  | BodyFailed msg => ret (json 400 (Error (or_else msg "Invalid body")))
  | BodyNotJSON => ret (json 400 (Error "Body must be JSON"))
  | BodyJSON data =>
      let* id_value := read_property data "id" in
      let* id_text := string_or_empty id_value in
      let id := safeBasename id_text in
      let* to_value := read_property data "to" in
      let* to := string_or_empty to_value in
      match id with
      | None => ret (json 400 (Error "Invalid id"))
      | Some id =>
          if String.eqb id "" then ret (json 400 (Error "Invalid id"))
          else match parse_status to with
               | None => ret (json 400 (Error "Invalid destination"))
               | Some to =>
                   let fromDir := match to with pending => done | _ => pending end in
                   let toDir := match to with pending => pending | _ => done end in
                   let* present := existsSync (AtEntry fromDir id) in
                   if negb present then ret (json 404 (Error ("Not found: " ++ id)))
                   else
                     let* failure :=
                       try_catch (let* _ := renameSync fromDir id toDir id in ret None)
                                 (fun e => ret (Some e)) in
                     match failure with
                     | Some e => ret (json 500 (Error (or_else (message e) "Move failed")))
                     | None => ret (json 200 Ok)
                     end
               end
      end
  end.

(** The routes of the request callback, from the path that [new URL] gave *)
Definition handle (root : string) (req : request) : FS response :=
  if String.eqb (method req) "GET" && String.eqb (pathname req) "/"
  then ret (text 200 Html)
  else if String.eqb (method req) "GET" && String.eqb (pathname req) "/api/todos"
  then api_todos root
  else if String.eqb (method req) "POST" && String.eqb (pathname req) "/api/move"
  then api_move (req_body req)
  else ret (text 404 (Text (String.append "Not found" (String LF "")))).

(** What the callback is given: the method, the request target, the [Host]
    header when there is one, and the body as [readBody] and [JSON.parse]
    leave it. *)
Record incoming := {
  in_method : string;
  in_url : string;
  in_host : option string;
  in_body : request_body
}.

Section Callback.

(** [new URL(input, base).pathname], [None] when the constructor throws *)
Variable URL_pathname : string -> string -> option string.

(** The base given to [new URL] *)
Definition url_base (req : incoming) : string :=
  "http://" ++ or_else (default "" (in_host req)) "localhost".

(** The callback of [http.createServer] *)
Definition on_request (root : string) (req : incoming) : FS response :=
  match URL_pathname (in_url req) (url_base req) with
  | None => throw InvalidURL
  | Some p =>
      handle root {| method := in_method req; pathname := p;
                     req_body := in_body req |}
  end.

End Callback.

(** The object with the members [id] and [to], each one a string or left
    out *)
Definition JFields (id_field to_field : option string) : jsvalue :=
  JObject (match id_field with Some s => [("id", JString s)] | None => [] end ++
           match to_field with Some s => [("to", JString s)] | None => [] end)%list.

(** A move request as the board's client sends it *)
Definition move_request (id to : string) : request :=
  {| method := "POST"; pathname := "/api/move";
     req_body := BodyJSON (JFields (Some id) (Some to)) |}.

Definition list_request : request :=
  {| method := "GET"; pathname := "/api/todos"; req_body := BodyJSON (JFields None None) |}.

(** Text of a status label *)
Definition label (s : status) : string :=
  match s with pending => "pending" | done => "done" end.

(** Running a request on a disk, from an empty log *)
Definition run {A} (m : FS A) (dk : disk) : outcome A * world :=
  m {| fs := dk; log := [] |}.

(** ** Vocabulary of the statements *)

(** What the callback of [readTodos] has in [md] for an entry: the content
    of a readable regular file, and the empty string when the read throws. *)
Definition text_of (n : option node) : string :=
  match n with
  | Some (File true data) => data
  | _ => ""
  end.

(** The names [readTodos] keeps, in its order *)
Definition listed (x : directory) : list string :=
  merge_sort String.le (filter (fun f => is_md f = true) (map_to_list (entries x)).*1).

(** What [readTodos] gives for what is at the path: the items of the names
    kept, or the exception of [fs.readdirSync] *)
Definition lane (root : string) (dk : disk) (dir st : status) : outcome (list TodoItem) :=
  match place_of dk dir with
  | Nothing => Ret []
  | NotADirectory => Throw ENOTDIR
  | Directory x =>
      if listable x
      then Ret (map (fun f => todo_of (dir_path root dir) st f (text_of (entries x !! f)))
                    (listed x))
      else Throw EACCES
  end.

(** The calls [readTodos] makes *)
Definition lane_calls (dk : disk) (dir : status) : list event :=
  match place_of dk dir with
  | Nothing => [ExistsSync (AtDir dir)]
  | NotADirectory => [ExistsSync (AtDir dir); ReaddirSync dir]
  | Directory x =>
      [ExistsSync (AtDir dir); ReaddirSync dir] ++
      (if listable x then map (ReadFileSync dir) (listed x) else [])
  end.

(** A path that [fs.readdirSync] refuses while [fs.existsSync] finds it *)
Definition cannot_list (dk : disk) (d : status) : bool :=
  match place_of dk d with
  | Nothing => false
  | NotADirectory => true
  | Directory x => negb (listable x)
  end.

(** [String(data.name || '')] for a parsed value that is not [null], [None]
    when the conversion throws *)
Definition field_string (data : jsvalue) (name : string) : option string :=
  match match data with JObject members => member name members | _ => None end with
  | Some x => if js_truthy x then js_String x else Some ""
  | None => Some ""
  end.

(** The bodies on which the move route throws: [null], of which no property
    can be read, and a value whose [id] or [to] cannot be converted to a
    string *)
Definition move_throws (b : request_body) : Prop :=
  exists data, b = BodyJSON data /\
    (data = JNull \/ field_string data "id" = None \/ field_string data "to" = None).

(** The requests on which the routes throw: a listing when a managed path
    is found and cannot be listed, and a move with a body as above *)
Definition throws_at (req : request) (dk : disk) : Prop :=
  (method req = "GET" /\ pathname req = "/api/todos" /\
   exists d, cannot_list dk d = true) \/
  (method req = "POST" /\ pathname req = "/api/move" /\ move_throws (req_body req)).

(** Calls that only look at the disk *)
Definition is_read (e : event) : bool :=
  match e with
  | RenameSync _ _ _ _ => false
  | _ => true
  end.

(** [s] holds a path separator *)
Definition has_slash (s : string) : bool :=
  negb (all_chars (fun c => negb (is_slash c)) s).

(** What the first pattern of the loop accepts: a key, a colon, white
    space and a value; and what the second accepts: white space, a dash,
    white space and a value. *)
Definition key_line_shape (line key ws value : string) : Prop :=
  line = key ++ ":" ++ ws ++ value /\ key <> "" /\
  all_chars is_key_char key = true /\ all_chars is_space ws = true /\
  all_chars is_dot_char value = true.

Definition item_line_shape (line ws1 ws2 value : string) : Prop :=
  line = ws1 ++ "-" ++ ws2 ++ value /\
  all_chars is_space ws1 = true /\ all_chars is_space ws2 = true /\
  all_chars is_dot_char value = true.

(** A line that the loop reads as the list item [x] *)
Definition item_line (line x : string) : Prop :=
  match_key_line line = None /\ match_item_line line = Some x.

(** No line of [lines] assigns [key], and none is read as a list item while
    [key] is the current key; [cur] is the current key before [lines]. *)
Fixpoint untouched (key : string) (cur : option string) (lines : list string) : bool :=
  match lines with
  | [] => true
  | line :: rest =>
      match match_key_line line with
      | Some (k, _) => negb (String.eqb k key) && untouched key (Some k) rest
      | None =>
          match match_item_line line, cur with
          | Some _, Some c => negb (String.eqb c key) && untouched key cur rest
          | _, _ => untouched key cur rest
          end
      end
  end.

(** ** Sample files and boards *)

Definition NL : string := String LF "".

(** [title: Fix bug] between two marker lines *)
Definition md_fix_bug : string :=
  "---" ++ NL ++ "title: Fix bug" ++ NL ++ "---" ++ NL ++ "Details" ++ NL.

(** [title:] with no value, then two list items *)
Definition md_title_items : string :=
  "---" ++ NL ++ "title:" ++ NL ++ "- foo" ++ NL ++ "- bar" ++ NL ++ "---" ++ NL.

(** [title:] with no value and no list item of its own; [files:] with one *)
Definition md_title_empty : string :=
  "---" ++ NL ++ "title:" ++ NL ++ "area: api" ++ NL ++ "files:" ++ NL
        ++ "  - src/a.js" ++ NL ++ "---" ++ NL.

(** [__proto__:] with no value, then with a value, then a list item *)
Definition md_proto : string :=
  "---" ++ NL ++ "__proto__:" ++ NL ++ "__proto__: x" ++ NL ++ "- foo" ++ NL
        ++ "---" ++ NL.

Definition board (wp : bool) (p : list (string * node))
    (wd : bool) (d : list (string * node)) : disk :=
  {| pendingDir := Directory {| listable := true; writable := wp;
                                entries := list_to_map p |};
     doneDir := Directory {| listable := true; writable := wd;
                             entries := list_to_map d |} |}.

(** [pending/a1.md], nothing done *)
Definition sample_board : disk :=
  board true [("a1.md", File true md_fix_bug)] true [].

(** The same, with a read-only [done] directory *)
Definition locked_board : disk :=
  board true [("a1.md", File true md_fix_bug)] false [].

(** The same, with the [done] directory removed *)
Definition no_done_board : disk :=
  {| pendingDir := Directory {| listable := true; writable := true;
                                entries := list_to_map [("a1.md", File true md_fix_bug)] |};
     doneDir := Nothing |}.

(** [pending/a1.md] in a directory of mode 0300: entries can be reached and
    renamed, the directory cannot be listed *)
Definition unlistable_board : disk :=
  {| pendingDir := Directory {| listable := false; writable := true;
                                entries := list_to_map [("a1.md", File true md_fix_bug)] |};
     doneDir := Directory {| listable := true; writable := true; entries := ∅ |} |}.

(** A regular file at the path of the [pending] directory *)
Definition file_for_pending_board : disk :=
  {| pendingDir := NotADirectory;
     doneDir := Directory {| listable := true; writable := true; entries := ∅ |} |}.

(** [a1.md] in both directories, with different content *)
Definition collision_board : disk :=
  board true [("a1.md", File true md_fix_bug)] true [("a1.md", File true "old")].


(** An unreadable file and a sub-directory among the entries *)
Definition bad_files_board : disk :=
  board true [("a1.md", File true md_fix_bug); ("b.md", File false "secret");
              ("c.md", Dir false)] true [].

(** ** The launcher: [parseArgs], [ensureTodoDirs] and the start of [main] *)

(** A value or a thrown [Error] with its message *)
Inductive thrown (A : Type) :=
| Value (a : A)
| Thrown (msg : string).
Arguments Value {A} a.
Arguments Thrown {A} msg.

(** [x] as the condition of an [if], for a string or [undefined] read from
    [argv]; [undefined] is passed as the empty string *)
Definition truthy (x : string) : bool := negb (String.eqb x "").

Record kanban_args := {
  host : string;
  port : Q;
  open : bool;
  cwd : string;
  help : bool
}.

Definition set_host (a : kanban_args) (v : string) : kanban_args :=
  {| host := v; port := port a; open := open a; cwd := cwd a; help := help a |}.
Definition set_port (a : kanban_args) (n : Q) : kanban_args :=
  {| host := host a; port := n; open := open a; cwd := cwd a; help := help a |}.
Definition set_open (a : kanban_args) (b : bool) : kanban_args :=
  {| host := host a; port := port a; open := b; cwd := cwd a; help := help a |}.
Definition set_cwd (a : kanban_args) (v : string) : kanban_args :=
  {| host := host a; port := port a; open := open a; cwd := v; help := help a |}.
Definition set_help (a : kanban_args) : kanban_args :=
  {| host := host a; port := port a; open := open a; cwd := cwd a; help := true |}.

Section Launcher.

(** [Number(s)] when the result is finite, [None] for [NaN] and the
    infinities *)
Variable Number : string -> option Q.

(** [process.cwd()] and [path.resolve] *)
Variable process_cwd : string.
Variable path_resolve : string -> string.

(** One turn of the loop of [parseArgs] on [a = argv[i]], with
    [next = argv[i + 1]]: [take] goes on after [argv[++i]] has been read,
    [skip] goes on after [a] alone. *)
Definition parse_step (a next : string) (args : kanban_args)
    (skip take : kanban_args -> thrown kanban_args) : thrown kanban_args :=
  if String.eqb a "--host" && truthy next then take (set_host args next)
  else if (String.eqb a "--port" || String.eqb a "-p") && truthy next then
    match Number next with
    | Some n =>
        if Qle_bool n 0 then Thrown ("Invalid port: " ++ next)
        else take (set_port args n)
    | None => Thrown ("Invalid port: " ++ next)
    end
  else if String.eqb a "--no-open" then skip (set_open args false)
  else if String.eqb a "--open" then skip (set_open args true)
  else if (String.eqb a "--cwd" || String.eqb a "-C") && truthy next then
    take (set_cwd args next)
  else if String.eqb a "--help" || String.eqb a "-h" then skip (set_help args)
  else skip args.

(** The loop of [parseArgs] from [argv[i]] on; [rest] is [argv.slice(i)]. *)
Fixpoint parse_loop (args : kanban_args) (rest : list string) : thrown kanban_args :=
  match rest with
  | [] => Value args
  | a :: tl =>
      parse_step a (hd "" tl) args
        (fun args' => parse_loop args' tl)
        (fun args' => match tl with
                      | _ :: tl' => parse_loop args' tl'
                      | [] => Value args'
                      end)
  end.

Definition default_args : kanban_args :=
  {| host := "127.0.0.1"; port := 3333; open := true; cwd := process_cwd;
     help := false |}.

Definition parseArgs (argv : list string) : thrown kanban_args :=
  parse_loop default_args (drop 2 argv).

(** [fs.mkdirSync(dir, { recursive: true })] on the path of a managed
    directory: nothing happens when a directory is there, a new empty
    directory is made when nothing is, and the call throws when something
    else is. *)
Definition mkdirSync (dk : disk) (d : status) : outcome unit * disk :=
  match place_of dk d with
  | Directory _ => (Ret tt, dk)
  | Nothing =>
      (Ret tt, set_dir dk d {| listable := true; writable := true; entries := ∅ |})
  | NotADirectory => (Throw EEXIST, dk)
  end.

(** The outcome, and the disk it leaves: what the first call made stays
    when the second one throws. *)
Definition ensureTodoDirs (dk : disk) : outcome unit * disk :=
  match mkdirSync dk pending with
  | (Ret _, dk1) => mkdirSync dk1 done
  | (Throw e, dk1) => (Throw e, dk1)
  end.

(** The ports [server.listen] takes: the integers up to 65535.  For any
    other number it throws a RangeError. *)
Definition port_accepted (p : Q) : bool :=
  Qeq_bool (inject_Z (Qfloor p)) p && Qle_bool 0 p && Qle_bool p 65535.

(** How [main] starts: the usage text and nothing more; an exception out of
    [parseArgs] or [ensureTodoDirs], with its message; a port that
    [server.listen] refuses (for both the caller prints the exception and
    sets the exit code 1); or [server.listen] called on [(host, port)] for
    the board under [root], the browser being opened or not once the
    address is bound. *)
Inductive startup :=
| Usage
| Crash (msg : string)
| BadPort (on_port : Q)
| Serving (on_host : string) (on_port : Q) (root : string) (browser : bool).

Definition main (argv : list string) (dk : disk) : startup * disk :=
  match parseArgs argv with
  | Thrown msg => (Crash msg, dk)
  | Value args =>
      if help args then (Usage, dk)
      else
        let root := path_resolve (cwd args) in
        match ensureTodoDirs dk with
        | (Throw e, dk') => (Crash (message e), dk')
        | (Ret _, dk') =>
            if port_accepted (port args)
            then (Serving (host args) (port args) root (open args), dk')
            else (BadPort (port args), dk')
        end
  end.

End Launcher.

(** The flags of [parseArgs] that read the next argument *)
Definition takes_value (a : string) : bool :=
  bool_decide (a ∈ ["--host"; "--port"; "-p"; "--cwd"; "-C"]).

(** The arguments [parseArgs] knows *)
Definition is_flag (a : string) : bool :=
  takes_value a || bool_decide (a ∈ ["--no-open"; "--open"; "--help"; "-h"]).

(** The scan of [rest] ends on a flag that reads the next argument and has
    none to read. *)
Fixpoint dangling (rest : list string) : bool :=
  match rest with
  | [] => false
  | a :: tl =>
      if takes_value a then
        match tl with
        | [] => true
        | v :: tl' => if truthy v then dangling tl' else dangling tl
        end
      else dangling tl
  end.

(** A reading of numbers for the examples: decimal numerals only as far as
    the examples need them *)
Definition sample_Number (s : string) : option Q :=
  if String.eqb s "8080" then Some 8080%Q
  else if String.eqb s "0" then Some 0%Q
  else if String.eqb s "3" then Some 3%Q
  else if String.eqb s "2.5" then Some 2.5%Q
  else None.

(** The names on the board, in either directory *)
Definition dir_names (dk : disk) (d : status) : gset string :=
  match get_dir dk d with
  | Some x => dom (entries x)
  | None => ∅
  end.

Definition board_names (dk : disk) : gset string :=
  dir_names dk pending ∪ dir_names dk done.

(** What is at the path of a managed directory, and for a directory its
    permissions: the place with the entries left out *)
Definition dir_mode (dk : disk) (d : status) : place :=
  match place_of dk d with
  | Directory x =>
      Directory {| listable := listable x; writable := writable x; entries := ∅ |}
  | p => p
  end.

(** The lane of a status in the answer of the list route *)
Definition lane_of (p : payload) (s : status) : list TodoItem :=
  match p, s with
  | Todos pending_items _, pending => pending_items
  | Todos _ done_items, done => done_items
  | _, _ => []
  end.

(** The item of an entry seen in another directory: only the status and
    the path differ. *)
Definition relocated (root : string) (to : status) (it : TodoItem) : TodoItem :=
  {| id := id it; item_status := to; title := title it; area := area it;
     created := created it; files := files it;
     path := path_join (dir_path root to) (id it) |}.

(** ** The script of the served page

    The functions of the page that work on strings and on the items of the
    list route: [escapeHtml], [filters], [match] (here [match_todo]) and
    [buildAreaOptions]. *)
Module Client.

(** The double quote *)
Definition DQ : ascii := ascii_of_nat 34.

(** The replacement of one unit by [escapeHtml] *)
Definition escape_char (c : ascii) : string :=
  if Ascii.eqb c "&" then "&amp;"
  else if Ascii.eqb c "<" then "&lt;"
  else if Ascii.eqb c ">" then "&gt;"
  else if Ascii.eqb c DQ then "&quot;"
  else if Ascii.eqb c "'" then "&#39;"
  else String c "".

(** [String(s).replace(re, c => ...)], where the global pattern [re] is the
    class of the five units replaced *)
Fixpoint escapeHtml (s : string) : string :=
  match s with
  | EmptyString => EmptyString
  | String c r => escape_char c ++ escapeHtml r
  end.

(** [toLowerCase] on a unit below 256: the letters A to Z and the letters
    from U+00C0 to U+00DE other than U+00D7 move up by 32. *)
Definition lower_char (c : ascii) : ascii :=
  if in_range 65 90 c || in_range 192 214 c || in_range 216 222 c
  then ascii_of_nat (code_unit c + 32)
  else c.

Fixpoint toLowerCase (s : string) : string :=
  match s with
  | EmptyString => EmptyString
  | String c r => String (lower_char c) (toLowerCase r)
  end.

(** [hay.includes(q)] *)
Fixpoint includes (hay q : string) : bool :=
  String.prefix q hay ||
  match hay with
  | EmptyString => false
  | String _ r => includes r q
  end.

Record filter := { q : string; f_area : string }.

(** [filters()], from the values of the search box and of the area select *)
Definition filters (q_value area_value : string) : filter :=
  {| q := toLowerCase (trim q_value); f_area := toLowerCase (trim area_value) |}.

(** [match(todo, f)] *)
Definition match_todo (todo : TodoItem) (f : filter) : bool :=
  if truthy (f_area f) && negb (String.eqb (toLowerCase (area todo)) (f_area f))
  then false
  else if negb (truthy (q f)) then true
  else
    let hay := toLowerCase (title todo ++ " " ++ area todo ++ " " ++ id todo) in
    includes hay (q f).

(** [areas.add(a)] on a [Set] kept in insertion order *)
Definition set_add (seen : list string) (a : string) : list string :=
  if bool_decide (a ∈ seen) then seen else seen ++ [a].

(** [Array.from(areas).sort()] in [buildAreaOptions] *)
Definition area_options (pending_items done_items : list TodoItem) : list string :=
  merge_sort String.le
    (fold_left (fun seen t => set_add seen (or_else (area t) "general"))
               (pending_items ++ done_items) []).

(** The markup [buildAreaOptions] puts in the area select *)
Definition buildAreaOptions (pending_items done_items : list TodoItem) : string :=
  ("<option value=" ++ String DQ (String DQ ">All areas</option>")) ++
  String.concat ""
    (map (fun a => "<option value=" ++ String DQ (escapeHtml a) ++
                   String DQ ">" ++ escapeHtml a ++ "</option>")
         (area_options pending_items done_items)).

End Client.

(** Units that end or open markup or an attribute value *)
Definition is_markup (c : ascii) : bool :=
  Ascii.eqb c "<" || Ascii.eqb c ">" || Ascii.eqb c Client.DQ || Ascii.eqb c "'".

(** ** The autopilot loop

    [parseArgs], [detectVerifyCommand], [runShell], [clip], [buildPrompt],
    [runCodex] and [main] of the autopilot tool.  The processes it starts
    answer through two oracles, asked with the number of the round. *)
Module Autopilot.

Record args := {
  cwd : string;
  verify : option string;
  goal : option string;
  maxIterations : Q;
  codexArgs : list string;
  dangerous : bool;
  model : option string;
  help : bool
}.

Definition set_cwd (o : args) (v : string) : args :=
  {| cwd := v; verify := verify o; goal := goal o; maxIterations := maxIterations o;
     codexArgs := codexArgs o; dangerous := dangerous o; model := model o;
     help := help o |}.
Definition set_verify (o : args) (v : string) : args :=
  {| cwd := cwd o; verify := Some v; goal := goal o; maxIterations := maxIterations o;
     codexArgs := codexArgs o; dangerous := dangerous o; model := model o;
     help := help o |}.
Definition set_goal (o : args) (v : string) : args :=
  {| cwd := cwd o; verify := verify o; goal := Some v; maxIterations := maxIterations o;
     codexArgs := codexArgs o; dangerous := dangerous o; model := model o;
     help := help o |}.
Definition set_maxIterations (o : args) (n : Q) : args :=
  {| cwd := cwd o; verify := verify o; goal := goal o; maxIterations := n;
     codexArgs := codexArgs o; dangerous := dangerous o; model := model o;
     help := help o |}.
Definition set_codexArgs (o : args) (l : list string) : args :=
  {| cwd := cwd o; verify := verify o; goal := goal o; maxIterations := maxIterations o;
     codexArgs := l; dangerous := dangerous o; model := model o; help := help o |}.
Definition set_dangerous (o : args) : args :=
  {| cwd := cwd o; verify := verify o; goal := goal o; maxIterations := maxIterations o;
     codexArgs := codexArgs o; dangerous := true; model := model o; help := help o |}.
Definition set_model (o : args) (v : string) : args :=
  {| cwd := cwd o; verify := verify o; goal := goal o; maxIterations := maxIterations o;
     codexArgs := codexArgs o; dangerous := dangerous o; model := Some v;
     help := help o |}.
Definition set_help (o : args) : args :=
  {| cwd := cwd o; verify := verify o; goal := goal o; maxIterations := maxIterations o;
     codexArgs := codexArgs o; dangerous := dangerous o; model := model o;
     help := true |}.

(** What [runShell] returns *)
Record shell_result := { code : Z; stdout : string; stderr : string }.

(** A process that was run, with the status taken for it *)
Inductive run :=
| Codex (argv : list string) (status : Z)
| Verify (command : string) (dir : string) (status : Z).

(** How [main] ends: [process.exitCode] and the processes run, in order *)
Record result := { exit_code : Z; runs : list run }.

Section WithEnvironment.

(** [Number(s)] when finite; [process.cwd()]; [path.resolve];
    [fs.existsSync] *)
Variable Number : string -> option Q.
Variable process_cwd : string.
Variable path_resolve : string -> string.
Variable existsSync : string -> bool.

(** [spawnSync('codex', argv, ...)] in round [i]: its [status], [None] when
    it is not a number *)
Variable spawn_codex : nat -> list string -> option Z.

(** [spawnSync(command, { cwd, shell: true, ... })] in round [i]: its
    [status], [stdout] and [stderr], the last two empty when missing *)
Variable spawn_shell : nat -> string -> string -> option Z * string * string.

(** The text of the unit U+2026, which is outside the range of [ascii] *)
Variable ELLIPSIS : string.

(** One turn of the loop of [parseArgs] on [a = argv[i]], with
    [next = argv[i + 1]] and [after = argv.slice(i + 1)]; the state is [out]
    and [rest]. *)
Definition parse_step (a next : string) (after : list string)
    (st : args * list string)
    (skip take : args * list string -> thrown (args * list string))
  : thrown (args * list string) :=
  let out := fst st in
  let rest := snd st in
  if (String.eqb a "--cwd" || String.eqb a "-C") && truthy next
  then take (set_cwd out next, rest)
  else if String.eqb a "--verify" && truthy next
  then take (set_verify out next, rest)
  else if (String.eqb a "--max" || String.eqb a "--max-iterations") && truthy next then
    match Number next with
    | Some n =>
        if Qle_bool n 0 then Thrown ("Invalid max iterations: " ++ next)
        else take (set_maxIterations out n, rest)
    | None => Thrown ("Invalid max iterations: " ++ next)
    end
  else if (String.eqb a "--model" || String.eqb a "-m") && truthy next
  then take (set_model out next, rest)
  else if String.eqb a "--dangerous" then skip (set_dangerous out, rest)
  else if String.eqb a "--help" || String.eqb a "-h" then skip (set_help out, rest)
  else if String.eqb a "--" then Value (set_codexArgs out after, rest)
  else skip (out, rest ++ [a])%list.

Fixpoint parse_loop (st : args * list string) (l : list string)
  : thrown (args * list string) :=
  match l with
  | [] => Value st
  | a :: tl =>
      parse_step a (hd "" tl) tl st
        (fun st' => parse_loop st' tl)
        (fun st' => match tl with
                    | _ :: tl' => parse_loop st' tl'
                    | [] => Value st'
                    end)
  end.

Definition default_args : args :=
  {| cwd := process_cwd; verify := None; goal := None; maxIterations := 5;
     codexArgs := []; dangerous := false; model := None; help := false |}.

(** The lines after the loop: the goal is what was not a flag *)
Definition with_goal (st : args * list string) : args :=
  match snd st with
  | [] => fst st
  | _ :: _ => set_goal (fst st) (trim (String.concat " " (snd st)))
  end.

Definition parseArgs (argv : list string) : thrown args :=
  match parse_loop (default_args, []) (drop 2 argv) with
  | Value st => Value (with_goal st)
  | Thrown msg => Thrown msg
  end.

Definition detectVerifyCommand (root : string) : option string :=
  let has := fun p => existsSync (path_join root p) in
  if negb (has "package.json") then None
  else if has "pnpm-lock.yaml" then Some "pnpm test"
  else if has "yarn.lock" then Some "yarn test"
  else if has "package-lock.json" then Some "npm test"
  else Some "npm test".

Definition runShell (i : nat) (command dir : string) : shell_result :=
  let '(status, out, err) := spawn_shell i command dir in
  {| code := default 1%Z status; stdout := out; stderr := err |}.

(** [clip(s, max)] *)
Definition clip (s : string) (max : nat) : string :=
  if negb (truthy s) then ""
  else if (String.length s <=? max)%nat then s
  else slice s 0 max ++ NL ++ ELLIPSIS ++ "(clipped "
         ++ pretty (String.length s - max)%nat ++ " chars)" ++ ELLIPSIS ++ NL.

Definition buildPrompt (goal verify : string) (iteration : nat)
    (lastVerify : option shell_result) : string :=
  let lines :=
    ["You are AutoCode Autopilot.";
     "";
     "Goal:";
     goal;
     "";
     "Hard requirement: verification must pass before you stop.";
     "Verification command: " ++ verify;
     "";
     "Instructions:";
     "- Make the smallest correct change set to satisfy the goal.";
     "- Run the verification command, read failures, and iterate until it passes.";
     "- If verification is slow, still run it at least once per iteration and when you believe you are done.";
     "- Finish with a concise summary of what changed and the verification result.";
     "";
     "Iteration: " ++ pretty iteration] in
  let lines :=
    match lastVerify with
    | Some last =>
        if truthy (stdout last) || truthy (stderr last)
        then (lines ++ [""; "Most recent verification output (from outside this agent run):";
                        "```";
                        clip (stdout last ++ stderr last) (8 * 1000);
                        "```"])%list
        else lines
    | None => lines
    end in
  String.concat NL lines.

(** The arguments [runCodex] gives to [codex] *)
Definition codex_argv (dir prompt : string) (model : option string)
    (dangerous : bool) (extraArgs : list string) : list string :=
  (["exec"; "--full-auto"; "-C"; dir]
   ++ (if dangerous then ["--dangerously-bypass-approvals-and-sandbox"] else [])
   ++ match model with
      | Some m => if truthy m then ["-m"; m] else []
      | None => []
      end
   ++ extraArgs
   ++ [prompt])%list.

Definition runCodex (i : nat) (dir prompt : string) (model : option string)
    (dangerous : bool) (extraArgs : list string) : Z :=
  default 1%Z (spawn_codex i (codex_argv dir prompt model dangerous extraArgs)).

(** The loop of [main] from round [i] on; [done_runs] holds the processes
    run so far, the latest first.  [None]: out of [fuel]. *)
Fixpoint rounds (fuel : nat) (a : args) (dir goal verify : string) (i : nat)
    (lastVerify : option shell_result) (done_runs : list run) : option result :=
  match fuel with
  | O => None
  | S fuel' =>
      if Qle_bool (inject_Z (Z.of_nat i)) (maxIterations a) then
        let prompt := buildPrompt goal verify i lastVerify in
        let codexStatus := runCodex i dir prompt (model a) (dangerous a) (codexArgs a) in
        let done_runs :=
          Codex (codex_argv dir prompt (model a) (dangerous a) (codexArgs a)) codexStatus
          :: done_runs in
        if negb (codexStatus =? 0)%Z
        then Some {| exit_code := codexStatus; runs := rev done_runs |}
        else
          let last := runShell i verify dir in
          let done_runs := Verify verify dir (code last) :: done_runs in
          if (code last =? 0)%Z
          then Some {| exit_code := 0; runs := rev done_runs |}
          else rounds fuel' a dir goal verify (S i) (Some last) done_runs
      else Some {| exit_code := 1; runs := rev done_runs |}
  end.

(** [main]: the exit code is 0 where the code leaves it unset. *)
Definition main (argv : list string) : thrown (option result) :=
  match parseArgs argv with
  | Thrown msg => Thrown msg
  | Value a =>
      let no_goal := match goal a with Some g => negb (truthy g) | None => true end in
      if help a || no_goal
      then Value (Some {| exit_code := if no_goal then 2 else 0; runs := [] |})
      else
        let dir := path_resolve (cwd a) in
        let verify :=
          match verify a with
          | Some v => if truthy v then Some v else detectVerifyCommand dir
          | None => detectVerifyCommand dir
          end in
        match verify with
        | None => Value (Some {| exit_code := 2; runs := [] |})
        | Some v =>
            if negb (truthy v) then Value (Some {| exit_code := 2; runs := [] |})
            else
              Value (rounds (S (Z.to_nat (Qfloor (maxIterations a)))) a dir
                       (default "" (goal a)) v 1 None [])
        end
  end.

End WithEnvironment.

(** The flags of [parseArgs] that read the next argument *)
Definition takes_value (a : string) : bool :=
  bool_decide (a ∈ ["--cwd"; "-C"; "--verify"; "--max"; "--max-iterations";
                    "--model"; "-m"]).

(** The scan of [l] ends on a flag that reads the next argument and has none
    to read, or has ended on [--]. *)
Fixpoint open_ended (l : list string) : bool :=
  match l with
  | [] => false
  | a :: tl =>
      if takes_value a then
        match tl with
        | [] => true
        | v :: tl' => if truthy v then open_ended tl' else open_ended tl
        end
      else if String.eqb a "--" then true
      else open_ended tl
  end.

Definition is_codex (r : run) : bool :=
  match r with Codex _ _ => true | Verify _ _ _ => false end.

Definition status_of (r : run) : Z :=
  match r with Codex _ s => s | Verify _ _ s => s end.

End Autopilot.

(** The order in which the autopilot runs processes: after a codex that
    ends with status 0 a verification; after any other codex nothing; after
    a verification that passes nothing; after one that fails nothing or a
    codex. *)
Fixpoint stops_in_order (l : list Autopilot.run) : bool :=
  match l with
  | [] => true
  | Autopilot.Codex _ s :: tl =>
      if (s =? 0)%Z
      then match tl with
           | Autopilot.Verify _ _ _ :: _ => stops_in_order tl
           | _ => false
           end
      else match tl with [] => true | _ :: _ => false end
  | Autopilot.Verify _ _ s :: tl =>
      if (s =? 0)%Z
      then match tl with [] => true | _ :: _ => false end
      else match tl with
           | [] => true
           | Autopilot.Codex _ _ :: _ => stops_in_order tl
           | Autopilot.Verify _ _ _ :: _ => false
           end
  end.

Definition starts_with_codex (l : list Autopilot.run) : bool :=
  match l with
  | Autopilot.Verify _ _ _ :: _ => false
  | _ => true
  end.

(** The exit code that goes with the last process run: the status of a
    codex, 0 after a verification that passed, 1 when the loop gave up *)
Definition exit_of (l : list Autopilot.run) : Z :=
  match last l with
  | Some (Autopilot.Codex _ s) => s
  | Some (Autopilot.Verify _ _ s) => if (s =? 0)%Z then 0%Z else 1%Z
  | None => 1%Z
  end.

(** Oracles for the examples: codex always ends with status 0, and the
    verification passes in the second round. *)
Definition sample_codex (i : nat) (argv : list string) : option Z := Some 0%Z.

Definition sample_shell (i : nat) (command dir : string) : option Z * string * string :=
  (if (i =? 2)%nat then Some 0%Z else Some 1%Z, "1 failing", "").

(** What every process run is run with: the verification is the command
    chosen, in the working directory; codex gets the arguments built from
    the options and a prompt. *)
Definition run_as_asked (a : Autopilot.args) (dir verify : string)
    (r : Autopilot.run) : Prop :=
  match r with
  | Autopilot.Verify c d _ => c = verify /\ d = dir
  | Autopilot.Codex argv _ =>
      exists prompt,
        argv = Autopilot.codex_argv dir prompt (Autopilot.model a)
                 (Autopilot.dangerous a) (Autopilot.codexArgs a)
  end.

(** How many times codex was run *)
Definition count_codex (l : list Autopilot.run) : nat :=
  length (List.filter Autopilot.is_codex l).

(** A command line of the autopilot for the examples, and its options *)
Definition autopilot_sample_argv : list string :=
  ["node"; "autopilot.js"; "Fix"; "tests"; "--verify"; "npm test"; "--max"; "3"].

Definition autopilot_sample_args : Autopilot.args :=
  {| Autopilot.cwd := "/w"; Autopilot.verify := Some "npm test";
     Autopilot.goal := Some "Fix tests"; Autopilot.maxIterations := 3;
     Autopilot.codexArgs := []; Autopilot.dangerous := false;
     Autopilot.model := None; Autopilot.help := false |}.

(** The options for the command line [node autopilot.js Fix] *)
Definition autopilot_bare_args : Autopilot.args :=
  {| Autopilot.cwd := "/w"; Autopilot.verify := None;
     Autopilot.goal := Some "Fix"; Autopilot.maxIterations := 5;
     Autopilot.codexArgs := []; Autopilot.dangerous := false;
     Autopilot.model := None; Autopilot.help := false |}.

(* ===================================================================== *)
(** * Properties *)
(* ===================================================================== *)

(** ** Checks on concrete inputs *)

Example safeBasename_a1 : safeBasename "a1.md" = Some "a1.md".
Proof. reflexivity. Qed.

Example safeBasename_traversal : safeBasename "../../etc/passwd" = None.
Proof. reflexivity. Qed.

Example safeBasename_traversal_md : safeBasename "../a1.md" = None.
Proof. reflexivity. Qed.

Example safeBasename_backslash : safeBasename "..\a1.md" = None.
Proof. reflexivity. Qed.

Example safeBasename_bare_extension : safeBasename ".md" = None.
Proof. reflexivity. Qed.

Example safeBasename_dots : safeBasename "..md" = Some "..md".
Proof. reflexivity. Qed.

Example basename_trailing_slashes : basename "a/b.md//" = "b.md".
Proof. reflexivity. Qed.

Example basename_root : basename "/" = "".
Proof. reflexivity. Qed.

Example split_lines_crlf :
  split_lines ("a" ++ String CR NL ++ "b" ++ NL ++ String CR "c")
  = ["a"; "b"; String CR "c"].
Proof. reflexivity. Qed.

Example split_lines_empty : split_lines "" = [""].
Proof. reflexivity. Qed.

Example trim_both_ends : trim ("  x y " ++ NL) = "x y".
Proof. reflexivity. Qed.

Example key_line_value : match_key_line "title:   Fix bug" = Some ("title", "Fix bug").
Proof. reflexivity. Qed.

Example key_line_dash_key : match_key_line "-a:b" = Some ("-a", "b").
Proof. reflexivity. Qed.

Example key_line_space_before_colon : match_key_line "title : x" = None.
Proof. reflexivity. Qed.

Example item_line_indented : match_item_line "   -  src/a.js" = Some "src/a.js".
Proof. reflexivity. Qed.

Example parse_fix_bug :
  obj_field (frontmatter (parseFrontmatter md_fix_bug)) "title" = Some (Scalar "Fix bug")
  /\ body (parseFrontmatter md_fix_bug) = NL ++ "Details" ++ NL.
Proof. split; reflexivity. Qed.

Example parse_unclosed :
  parseFrontmatter ("---" ++ NL ++ "title: x" ++ NL)
  = {| frontmatter := empty_object; body := "---" ++ NL ++ "title: x" ++ NL |}.
Proof. reflexivity. Qed.

(** The scenario of the specification: [a1.md] is listed under pending with
    its title, the move to done is answered ok, and the next listing has it
    under done and no longer under pending. *)
Example scenario_list_move_list :
  exists w1 w2 w3,
    run (handle "/r" list_request) sample_board =
      (Ret (json 200 (Todos
              [{| id := "a1.md"; item_status := pending; title := "Fix bug";
                  area := "general"; created := ""; files := [];
                  path := "/r/.planning/todos/pending/a1.md" |}] [])), w1) /\
    handle "/r" (move_request "a1.md" "done") w1 = (Ret (json 200 Ok), w2) /\
    handle "/r" list_request w2 =
      (Ret (json 200 (Todos []
              [{| id := "a1.md"; item_status := done; title := "Fix bug";
                  area := "general"; created := ""; files := [];
                  path := "/r/.planning/todos/done/a1.md" |}])), w3).
Proof.
  eexists _, _, _.
  split; [vm_compute; reflexivity|].
  split; vm_compute; reflexivity.
Qed.

(** ** Strings *)

Lemma append_cons c s t : String c s ++ t = String c (s ++ t).
Proof. reflexivity. Qed.

Lemma append_nil_l s : "" ++ s = s.
Proof. reflexivity. Qed.

Lemma append_nil_r s : s ++ "" = s.
Proof. induction s as [|c s IH]; [done|]. by rewrite append_cons, IH. Qed.

Lemma append_assoc s t u : (s ++ t) ++ u = s ++ (t ++ u).
Proof. induction s as [|c s IH]; [done|]. by rewrite !append_cons, IH. Qed.

Lemma rev_app_spec s t : String.rev_app s t = String.rev s ++ t.
Proof.
  unfold String.rev. revert t.
  induction s as [|c s IH]; intros t; simpl; [done|].
  rewrite IH, (IH (String c "")).
  by rewrite append_assoc.
Qed.

Lemma rev_cons c s : String.rev (String c s) = String.rev s ++ String c "".
Proof. unfold String.rev at 1. simpl. apply rev_app_spec. Qed.

Lemma rev_app_distr s t : String.rev (s ++ t) = String.rev t ++ String.rev s.
Proof.
  induction s as [|c s IH].
  - by rewrite append_nil_l, append_nil_r.
  - rewrite append_cons, !rev_cons, IH. by rewrite append_assoc.
Qed.

Lemma rev_involutive s : String.rev (String.rev s) = s.
Proof.
  induction s as [|c s IH]; [done|].
  rewrite rev_cons, rev_app_distr, IH. done.
Qed.

Section CharPredicate.
Variable p : ascii -> bool.

Lemma all_chars_app s t : all_chars p (s ++ t) = all_chars p s && all_chars p t.
Proof.
  induction s as [|c s IH]; [done|].
  rewrite append_cons. simpl. rewrite IH. by rewrite andb_assoc.
Qed.

Lemma all_chars_rev s : all_chars p (String.rev s) = all_chars p s.
Proof.
  induction s as [|c s IH]; [done|].
  rewrite rev_cons, all_chars_app, IH. simpl.
  rewrite andb_true_r. apply andb_comm.
Qed.

Lemma all_chars_takeWhile s : all_chars p (takeWhile p s) = true.
Proof.
  induction s as [|c s IH]; simpl; [done|].
  destruct (p c) eqn:E; simpl; [|done]. by rewrite E, IH.
Qed.

Lemma takeWhile_all s : all_chars p s = true -> takeWhile p s = s.
Proof.
  induction s as [|c s IH]; simpl; [done|].
  intros [Hc Hs]%andb_true_iff. rewrite Hc. f_equal. auto.
Qed.

Lemma dropWhile_false s : all_chars (fun c => negb (p c)) s = true -> dropWhile p s = s.
Proof.
  destruct s as [|c s]; simpl; [done|].
  intros [Hc _]%andb_true_iff. by destruct (p c).
Qed.

End CharPredicate.

(** ** [path.basename] *)


Lemma basename_id p : has_slash p = false -> basename p = p.
Proof.
  unfold has_slash, basename. intros H%negb_false_iff.
  rewrite dropWhile_false.
  - rewrite takeWhile_all, rev_involutive; [done|]. by rewrite all_chars_rev.
  - rewrite all_chars_rev. done.
Qed.


Lemma endsWith_unfold s x :
  endsWith s x =
  String.eqb s x || match s with "" => false | String _ r => endsWith r x end.
Proof. by destruct s. Qed.

Lemma endsWith_spec s x : endsWith s x = true <-> exists p, s = p ++ x.
Proof.
  split.
  - induction s as [|c s IH]; rewrite endsWith_unfold.
    + rewrite orb_false_r. intros ->%String.eqb_eq. by exists "".
    + intros [H|H]%orb_true_iff.
      * apply String.eqb_eq in H as <-. by exists "".
      * destruct (IH H) as [p ->]. by exists (String c p).
  - intros [p ->]. induction p as [|c p IH]; rewrite endsWith_unfold.
    + by rewrite append_nil_l, String.eqb_refl.
    + rewrite append_cons, IH. apply orb_true_r.
Qed.

(** ** The id pattern *)

Lemma is_id_char_not_slash c : is_id_char c = true -> is_slash c = false.
Proof.
  destruct c as [[] [] [] [] [] [] [] []]; vm_compute; congruence.
Qed.

Lemma id_pattern_rest_unfold s :
  id_pattern_rest s =
  String.eqb s ".md" ||
  match s with "" => false | String c r => is_id_char c && id_pattern_rest r end.
Proof. by destruct s. Qed.

Lemma id_pattern_rest_spec s :
  id_pattern_rest s = true <->
  exists p, s = p ++ ".md" /\ all_chars is_id_char p = true.
Proof.
  split.
  - induction s as [|c s IH]; rewrite id_pattern_rest_unfold.
    + done.
    + intros [H|[Hc H]%andb_true_iff]%orb_true_iff.
      * exists "". split; [|done]. by apply String.eqb_eq in H.
      * destruct (IH H) as (p & -> & Hp). exists (String c p).
        split; [done|]. simpl. by rewrite Hc.
  - intros (p & -> & Hp). induction p as [|c p IH]; [done|].
    simpl in Hp. apply andb_true_iff in Hp as [Hc Hp].
    rewrite append_cons, id_pattern_rest_unfold. rewrite Hc, (IH Hp).
    apply orb_true_r.
Qed.

(** The pattern accepts exactly the names made of one or more units of the
    class followed by the extension. *)
Lemma id_pattern_spec s :
  id_pattern s = true <->
  exists p, s = p ++ ".md" /\ p <> "" /\ all_chars is_id_char p = true.
Proof.
  split.
  - destruct s as [|c s]; simpl; [discriminate|].
    intros [Hc H]%andb_true_iff.
    apply id_pattern_rest_spec in H as (p & -> & Hp).
    exists (String c p). repeat split; [done|]. simpl. by rewrite Hc.
  - intros (p & -> & Hne & Hp). destruct p as [|c p]; [done|].
    simpl in Hp. apply andb_true_iff in Hp as [Hc Hp].
    rewrite append_cons. simpl. rewrite Hc. simpl.
    apply id_pattern_rest_spec. eauto.
Qed.

Lemma id_pattern_chars s : id_pattern s = true -> all_chars is_id_char s = true.
Proof.
  intros (p & -> & _ & Hp)%id_pattern_spec.
  rewrite all_chars_app, Hp. done.
Qed.

Lemma id_pattern_is_md s : id_pattern s = true -> is_md s = true.
Proof.
  intros (p & -> & _)%id_pattern_spec. apply endsWith_spec. eauto.
Qed.

Lemma id_chars_no_slash s : all_chars is_id_char s = true -> has_slash s = false.
Proof.
  unfold has_slash. intros H. apply negb_false_iff.
  induction s as [|c s IH]; simpl in *; [done|].
  apply andb_true_iff in H as [Hc Hs].
  by rewrite (is_id_char_not_slash _ Hc), IH.
Qed.

Lemma id_pattern_nonempty s : id_pattern s = true -> s <> "".
Proof. by destruct s. Qed.

(** ** [safeBasename] *)

Lemma safeBasename_Some name b :
  safeBasename name = Some b <-> b = name /\ id_pattern name = true.
Proof.
  unfold safeBasename. split.
  - destruct (String.eqb_spec (basename name) name) as [E|E]; simpl; [|done].
    rewrite E. destruct (id_pattern name); simpl; [|done].
    intros [= <-]. done.
  - intros [-> H].
    rewrite (basename_id name) by by apply id_chars_no_slash, id_pattern_chars.
    by rewrite String.eqb_refl, H.
Qed.



(** ** Evaluation of the [fs] calls *)

Lemma read_or_empty_run dir file w :
  try_catch (readFileSync dir file) (fun _ => ret "") w =
  (Ret (text_of (get_entry (fs w) dir file)),
   {| fs := fs w; log := log w ++ [ReadFileSync dir file] |}).
Proof.
  unfold try_catch, readFileSync, call, ret. simpl.
  destruct (get_entry (fs w) dir file) as [[[] data|e]|]; reflexivity.
Qed.

Lemma read_all_run root dir st files : forall w,
  mapM (fun file =>
          let* md := try_catch (readFileSync dir file) (fun _ => ret "") in
          ret (todo_of (dir_path root dir) st file md)) files w =
  (Ret (map (fun f => todo_of (dir_path root dir) st f
                        (text_of (get_entry (fs w) dir f))) files),
   {| fs := fs w; log := log w ++ map (ReadFileSync dir) files |}).
Proof.
  induction files as [|f files IH]; intros w.
  - simpl. unfold ret. rewrite app_nil_r. by destruct w.
  - cbn [mapM map]. unfold bind at 1 2.
    rewrite read_or_empty_run. unfold ret at 1.
    unfold bind. rewrite IH. cbn [fs log ret].
    by rewrite <- app_assoc.
Qed.

(** ** The listing order *)

Lemma listed_Permutation x :
  listed x ≡ₚ filter (fun f => is_md f = true) (map_to_list (entries x)).*1.
Proof. apply merge_sort_Permutation. Qed.

Lemma listed_sorted x : StronglySorted String.le (listed x).
Proof. apply StronglySorted_merge_sort; apply _. Qed.

Lemma elem_of_listed x f :
  f ∈ listed x <-> is_Some (entries x !! f) /\ is_md f = true.
Proof.
  rewrite listed_Permutation, list_elem_of_filter, list_elem_of_fmap.
  split.
  - intros [Hmd ([f' n] & -> & Hin)]. split; [|done].
    apply elem_of_map_to_list in Hin. eauto.
  - intros [[n Hn] Hmd]. split; [done|].
    exists (f, n). split; [done|]. by apply elem_of_map_to_list.
Qed.

Lemma listed_NoDup x : NoDup (listed x).
Proof.
  rewrite listed_Permutation. apply NoDup_filter, NoDup_fst_map_to_list.
Qed.

(** The order in which the directory enumerates its entries does not show
    in the result. *)
Lemma listed_any_order x (names : list string) :
  names ≡ₚ (map_to_list (entries x)).*1 ->
  merge_sort String.le (filter (fun f => is_md f = true) names) = listed x.
Proof.
  intros Hp. apply (Sorted_unique String.le).
  - apply Sorted_merge_sort; apply _.
  - apply Sorted_merge_sort; apply _.
  - unfold listed. rewrite !merge_sort_Permutation. by rewrite Hp.
Qed.

Lemma enumerate_Permutation calls x :
  enumerate calls x ≡ₚ (map_to_list (entries x)).*1.
Proof.
  unfold enumerate, rotate.
  rewrite Permutation_app_comm. by rewrite take_drop.
Qed.

(** ** Evaluation of [readTodos] and of the list route *)

Lemma readTodos_run root dir st w :
  readTodos root dir st w =
  (lane root (fs w) dir st,
   {| fs := fs w; log := log w ++ lane_calls (fs w) dir |}).
Proof.
  unfold readTodos, lane, lane_calls, bind at 1, existsSync, call. cbn [fs log].
  destruct (place_of (fs w) dir) as [| |x] eqn:Hd; cbn [negb].
  - reflexivity.
  - unfold bind at 1, readdirSync. cbn [fs log]. rewrite Hd.
    by rewrite <- app_assoc.
  - unfold bind at 1, readdirSync. cbn [fs log]. rewrite Hd.
    destruct (listable x); [|by rewrite <- app_assoc].
    rewrite (listed_any_order x) by apply enumerate_Permutation.
    rewrite read_all_run. cbn [fs log]. f_equal.
    + f_equal. apply map_ext. intros f. unfold get_entry, get_dir. by rewrite Hd.
    + f_equal. rewrite <- !app_assoc. reflexivity.
Qed.

Lemma lane_calls_read dk dir : Forall (fun e => is_read e = true) (lane_calls dk dir).
Proof.
  unfold lane_calls. destruct (place_of dk dir) as [| |x].
  - by repeat constructor.
  - by repeat constructor.
  - repeat apply Forall_cons_2; try done.
    destruct (listable x); [|done]. by apply Forall_map, Forall_true.
Qed.

(** The list route: its outcome is made of the outcomes of the two lanes,
    the second one being read only when the first was. *)
Lemma api_todos_run root w :
  exists evs,
    api_todos root w =
      (match lane root (fs w) pending pending with
       | Throw e => Throw e
       | Ret p =>
           match lane root (fs w) done done with
           | Throw e => Throw e
           | Ret d => Ret (json 200 (Todos p d))
           end
       end,
       {| fs := fs w; log := log w ++ evs |}) /\
    Forall (fun e => is_read e = true) evs.
Proof.
  unfold api_todos, bind. rewrite !readTodos_run.
  destruct (lane root (fs w) pending pending) as [p|e]; cbn [fs log].
  - exists (lane_calls (fs w) pending ++ lane_calls (fs w) done)%list.
    split; [|apply Forall_app_2; apply lane_calls_read].
    rewrite <- app_assoc.
    by destruct (lane root (fs w) done done).
  - exists (lane_calls (fs w) pending). split; [done|apply lane_calls_read].
Qed.

(** When both lanes can be read, and only then, the route answers. *)
Lemma lane_Ret root dk dir st :
  cannot_list dk dir = false <-> exists items, lane root dk dir st = Ret items.
Proof.
  unfold cannot_list, lane. destruct (place_of dk dir) as [| |x].
  - split; eauto.
  - split; [done|by intros [? ?]].
  - destruct (listable x); split; eauto; try done. by intros [? ?].
Qed.

Lemma todo_ids root dir st (g : string -> string) (l : list string) :
  map id (map (fun f => todo_of (dir_path root dir) st f (g f)) l) = l.
Proof. rewrite map_map. simpl. apply map_id. Qed.

(** ** The disk after a rename *)

Lemma get_dir_set_eq dk d x : get_dir (set_dir dk d x) d = Some x.
Proof. by destruct d. Qed.

Lemma get_dir_set_ne dk d d' x : d <> d' -> get_dir (set_dir dk d x) d' = get_dir dk d'.
Proof. by destruct d, d'. Qed.

Lemma other_ne s : other s <> s.
Proof. by destruct s. Qed.

Lemma get_entry_remove_eq dk d name : get_entry (remove_entry dk d name) d name = None.
Proof.
  unfold get_entry, remove_entry.
  destruct (get_dir dk d) as [x|] eqn:E.
  - rewrite get_dir_set_eq. simpl. apply lookup_delete_eq.
  - by rewrite E.
Qed.

Lemma get_entry_remove_ne dk d name d' name' :
  (d, name) <> (d', name') ->
  get_entry (remove_entry dk d name) d' name' = get_entry dk d' name'.
Proof.
  intros Hne. unfold get_entry, remove_entry.
  destruct (get_dir dk d) as [x|] eqn:E; [|done].
  destruct (decide (d = d')) as [<-|Hd].
  - rewrite get_dir_set_eq, E. simpl. apply lookup_delete_ne. congruence.
  - by rewrite get_dir_set_ne.
Qed.

Lemma get_entry_put_eq dk d name n :
  is_Some (get_dir dk d) -> get_entry (put_entry dk d name n) d name = Some n.
Proof.
  intros [x E]. unfold get_entry, put_entry. rewrite E, get_dir_set_eq.
  simpl. apply lookup_insert_eq.
Qed.

Lemma get_entry_put_ne dk d name n d' name' :
  (d, name) <> (d', name') ->
  get_entry (put_entry dk d name n) d' name' = get_entry dk d' name'.
Proof.
  intros Hne. unfold get_entry, put_entry.
  destruct (get_dir dk d) as [x|] eqn:E; [|done].
  destruct (decide (d = d')) as [<-|Hd].
  - rewrite get_dir_set_eq, E. simpl. apply lookup_insert_ne. congruence.
  - by rewrite get_dir_set_ne.
Qed.

Lemma get_dir_remove_is_Some dk d name d' :
  is_Some (get_dir (remove_entry dk d name) d') <-> is_Some (get_dir dk d').
Proof.
  unfold remove_entry. destruct (get_dir dk d) as [x|] eqn:E; [|done].
  destruct (decide (d = d')) as [<-|Hd].
  - rewrite get_dir_set_eq, E. split; eauto.
  - by rewrite get_dir_set_ne.
Qed.

(** What a successful [rename_check] says *)
Lemma rename_check_inr dk d1 n1 d2 n2 src :
  rename_check dk d1 n1 d2 n2 = inr src ->
  get_entry dk d1 n1 = Some src /\ is_Some (get_dir dk d2).
Proof.
  unfold rename_check, get_entry, get_dir.
  destruct (place_of dk d1) as [| |x1]; [done|done|].
  destruct (place_of dk d2) as [| |x2]; [done|done|]. simpl.
  destruct (entries x1 !! n1) as [s|]; [|done].
  case_bool_decide; [intros [= ->]; eauto|].
  destruct (negb _); [done|].
  destruct (clash _ _); [done|]. intros [= ->]. eauto.
Qed.

(** [rename_check] between two directories that are there *)
Lemma rename_check_dirs dk d1 n1 d2 n2 x1 x2 :
  get_dir dk d1 = Some x1 -> get_dir dk d2 = Some x2 ->
  rename_check dk d1 n1 d2 n2 =
  match entries x1 !! n1 with
  | None => inl ENOENT
  | Some src =>
      if bool_decide (d1 = d2 /\ n1 = n2) then inr src
      else if negb (writable x1 && writable x2) then inl EACCES
      else match clash src (entries x2 !! n2) with
           | Some e => inl e
           | None => inr src
           end
  end.
Proof.
  unfold rename_check, get_dir.
  destruct (place_of dk d1) as [| |y1]; [done|done|].
  destruct (place_of dk d2) as [| |y2]; [done|done|].
  by intros [= ->] [= ->].
Qed.

(** ** Evaluation of the move route *)

Lemma parse_status_label s : parse_status (label s) = Some s.
Proof. by destruct s. Qed.

Lemma message_nonempty e : message e <> "".
Proof. by destruct e. Qed.

Lemma or_else_nonempty a b : a <> "" -> or_else a b = a.
Proof. unfold or_else. by intros ->%String.eqb_neq. Qed.

Lemma handle_move root id_field to_field w :
  handle root {| method := "POST"; pathname := "/api/move";
                 req_body := BodyJSON (JFields id_field to_field) |} w =
  api_move (BodyJSON (JFields id_field to_field)) w.
Proof. reflexivity. Qed.

Lemma handle_list root w : handle root list_request w = api_todos root w.
Proof. reflexivity. Qed.

Lemma string_or_empty_JString s w :
  string_or_empty (Some (JString s)) w = (Ret s, w).
Proof.
  unfold string_or_empty, js_truthy, js_String.
  by destruct (String.eqb_spec s "") as [->|].
Qed.

(** The move route on a body whose [id] and [to] are the strings [i] and
    [t]: the two conversions give the strings back and what follows is the
    checks, the existence test and the rename. *)
Lemma api_move_strings i t w :
  api_move (BodyJSON (JFields (Some i) (Some t))) w =
  match safeBasename i with
  | None => ret (json 400 (Error "Invalid id"))
  | Some id =>
      if String.eqb id "" then ret (json 400 (Error "Invalid id"))
      else match parse_status t with
           | None => ret (json 400 (Error "Invalid destination"))
           | Some to =>
               let fromDir := match to with pending => done | _ => pending end in
               let toDir := match to with pending => pending | _ => done end in
               let* present := existsSync (AtEntry fromDir id) in
               if negb present then ret (json 404 (Error ("Not found: " ++ id)))
               else
                 let* failure :=
                   try_catch (let* _ := renameSync fromDir id toDir id in ret None)
                             (fun e => ret (Some e)) in
                 match failure with
                 | Some e => ret (json 500 (Error (or_else (message e) "Move failed")))
                 | None => ret (json 200 Ok)
                 end
           end
  end w.
Proof.
  unfold api_move, JFields, read_property. cbn [app member String.eqb Ascii.eqb Bool.eqb].
  unfold bind at 1. unfold ret at 1.
  unfold bind at 1. rewrite string_or_empty_JString.
  unfold bind at 1. unfold ret at 1.
  unfold bind at 1. rewrite string_or_empty_JString.
  reflexivity.
Qed.


(** The move route on any parsed body: it throws on [null] and when a
    conversion to a string throws; otherwise it goes on from the two
    strings. *)
Lemma api_move_coerced data w :
  api_move (BodyJSON data) w =
  match data with
  | JNull => (Throw TypeError, w)
  | _ =>
      match field_string data "id" with
      | None => (Throw NotPrimitive, w)
      | Some i =>
          match field_string data "to" with
          | None => (Throw NotPrimitive, w)
          | Some t => api_move (BodyJSON (JFields (Some i) (Some t))) w
          end
      end
  end.
Proof.
  assert (forall v, string_or_empty v w =
            match match v with
                  | Some x => if js_truthy x then js_String x else Some ""
                  | None => Some ""
                  end with
            | Some s => (Ret s, w)
            | None => (Throw NotPrimitive, w)
            end) as Hconv.
  { intros [x|]; [|done]. unfold string_or_empty.
    destruct (js_truthy x); [|done]. by destruct (js_String x). }
  destruct data as [|b|shown|s|items|members]; [done|..].
  1-4: cbv beta iota delta [field_string]; rewrite api_move_strings; reflexivity.
  unfold field_string. unfold api_move at 1. unfold read_property.
  unfold bind at 1. unfold ret at 1.
  unfold bind at 1. rewrite Hconv.
  destruct (match member "id" members with
            | Some x => if js_truthy x then js_String x else Some ""
            | None => Some ""
            end) as [i|]; [|done].
  unfold bind at 1. unfold ret at 1.
  unfold bind at 1. rewrite Hconv.
  destruct (match member "to" members with
            | Some x => if js_truthy x then js_String x else Some ""
            | None => Some ""
            end) as [t|]; [|done].
  by rewrite api_move_strings.
Qed.

(** A request whose id and destination pass validation: the two calls it
    makes and what each outcome of the rename gives. *)
Lemma api_move_valid id to w :
  safeBasename id = Some id ->
  api_move (BodyJSON (JFields (Some id) (Some (label to)))) w =
  match get_entry (fs w) (other to) id with
  | None =>
      (Ret (json 404 (Error ("Not found: " ++ id))),
       {| fs := fs w; log := log w ++ [ExistsSync (AtEntry (other to) id)] |})
  | Some _ =>
      match rename_check (fs w) (other to) id to id with
      | inl e =>
          (Ret (json 500 (Error (message e))),
           {| fs := fs w;
              log := log w ++ [ExistsSync (AtEntry (other to) id);
                               RenameSync (other to) id to id] |})
      | inr src =>
          (Ret (json 200 Ok),
           {| fs := put_entry (remove_entry (fs w) (other to) id) to id src;
              log := log w ++ [ExistsSync (AtEntry (other to) id);
                               RenameSync (other to) id to id] |})
      end
  end.
Proof.
  intros Hid. rewrite api_move_strings.
  rewrite Hid.
  apply safeBasename_Some in Hid as [_ Hpat].
  apply id_pattern_nonempty, String.eqb_neq in Hpat. rewrite Hpat.
  rewrite parse_status_label.
  replace (match to with pending => done | done => pending end) with (other to)
    by by destruct to.
  replace (match to with pending => pending | done => done end) with to
    by by destruct to.
  unfold bind at 1, existsSync, call. cbn [fs log].
  destruct (get_entry (fs w) (other to) id) as [n|] eqn:Hn.
  - rewrite bool_decide_eq_true_2 by eauto. cbn [negb].
    unfold bind, try_catch, renameSync, call, ret. cbn [fs log].
    destruct (rename_check (fs w) (other to) id to id) as [e|src];
      cbn [fs log]; rewrite <- app_assoc; cbn [app]; [|done].
    by rewrite or_else_nonempty by apply message_nonempty.
  - rewrite bool_decide_eq_false_2 by (intros [? ?]; done). reflexivity.
Qed.

(** ** The Move Engine *)

(** Runs a move request whose id is known to be valid. *)
Ltac run_move :=
  unfold run, move_request;
  rewrite ?handle_move, ?api_move_valid by done;
  cbn [fs log].



(** C3. A move request whose id passes validation and is not an entry of
    the directory of the status other than [to] is answered with HTTP 404;
    the only [fs] call is the existence test and the disk is as it was. *)
Theorem move_not_found root dk id to :
  safeBasename id = Some id ->
  get_entry dk (other to) id = None ->
  run (handle root (move_request id (label to))) dk =
  (Ret (json 404 (Error ("Not found: " ++ id))),
   {| fs := dk; log := [ExistsSync (AtEntry (other to) id)] |}).
Proof.
  intros Hid Hn. run_move. by rewrite Hn.
Qed.

Lemma move_not_found_witness :
  safeBasename "missing.md" = Some "missing.md" /\
  get_entry sample_board (other pending) "missing.md" = None /\
  run (handle "/r" (move_request "missing.md" "pending")) sample_board =
  (Ret (json 404 (Error "Not found: missing.md")),
   {| fs := sample_board; log := [ExistsSync (AtEntry done "missing.md")] |}).
Proof.
  assert (safeBasename "missing.md" = Some "missing.md") as H1 by reflexivity.
  assert (get_entry sample_board (other pending) "missing.md" = None) as H2
    by reflexivity.
  split; [exact H1|]. split; [exact H2|].
  exact (move_not_found "/r" sample_board "missing.md" pending H1 H2).
Defined.

(** The disk after the rename of a successful move *)
Lemma moved_disk dk id to n :
  rename_check dk (other to) id to id = inr n ->
  let dk' := put_entry (remove_entry dk (other to) id) to id n in
  get_entry dk' to id = Some n /\
  get_entry dk' (other to) id = None /\
  (forall d f, f <> id -> get_entry dk' d f = get_entry dk d f).
Proof.
  intros [Hsrc Hdst]%rename_check_inr dk'. subst dk'.
  pose proof (other_ne to) as Hne. repeat split.
  - apply get_entry_put_eq. by apply get_dir_remove_is_Some.
  - rewrite get_entry_put_ne by congruence. apply get_entry_remove_eq.
  - intros d f Hf. rewrite get_entry_put_ne, get_entry_remove_ne; congruence.
Qed.

(** C1, as amended. For an id that passes validation and is an entry of the
    directory of the status other than [to], a move to [to] is answered
    after two calls: the handler looks for the entry in the directory of
    the other status and renames it from there to the directory of [to].
    When the rename does not fail the answer is HTTP 200 and ok, and
    afterwards the entry is in the directory of [to], is no longer in the
    other one, and every other entry is where it was. When the rename
    fails the answer is HTTP 500 with the message of the failure and the
    disk is as it was, so the entry stays where it was; the rename fails
    when the directory of [to] is read-only and when there is none. *)
Theorem move_succeeds root dk id to n :
  safeBasename id = Some id ->
  get_entry dk (other to) id = Some n ->
  exists resp dk',
    run (handle root (move_request id (label to))) dk =
      (Ret resp,
       {| fs := dk';
          log := [ExistsSync (AtEntry (other to) id);
                  RenameSync (other to) id to id] |}) /\
    (rename_check dk (other to) id to id = inr n \/
     exists e, rename_check dk (other to) id to id = inl e) /\
    (rename_check dk (other to) id to id = inr n ->
       resp = json 200 Ok /\
       get_entry dk' to id = Some n /\
       get_entry dk' (other to) id = None /\
       (forall d f, f <> id -> get_entry dk' d f = get_entry dk d f)) /\
    (forall e, rename_check dk (other to) id to id = inl e ->
       resp = json 500 (Error (message e)) /\ message e <> "" /\
       dk' = dk /\ get_entry dk' (other to) id = Some n) /\
    (forall x, get_dir dk to = Some x -> writable x = false ->
       rename_check dk (other to) id to id = inl EACCES) /\
    (get_dir dk to = None ->
       exists e, rename_check dk (other to) id to id = inl e).
Proof.
  intros Hid Hn.
  exists (match rename_check dk (other to) id to id with
          | inl e => json 500 (Error (message e))
          | inr _ => json 200 Ok
          end),
         (match rename_check dk (other to) id to id with
          | inl _ => dk
          | inr src => put_entry (remove_entry dk (other to) id) to id src
          end).
  split; [|split; [|split; [|split; [|split]]]].
  - run_move. rewrite Hn.
    by destruct (rename_check dk (other to) id to id).
  - destruct (rename_check dk (other to) id to id) as [e|src] eqn:Hr; [eauto|].
    left. apply rename_check_inr in Hr as [Hsrc _]. congruence.
  - intros Hr. rewrite Hr. split; [done|]. by apply moved_disk.
  - intros e ->. split; [done|]. split; [apply message_nonempty|done].
  - intros x Hx Hw.
    destruct (get_dir dk (other to)) as [x1|] eqn:Hx1.
    2: { unfold get_entry in Hn. by rewrite Hx1 in Hn. }
    rewrite (rename_check_dirs _ _ _ _ _ x1 x Hx1 Hx).
    unfold get_entry in Hn. rewrite Hx1 in Hn. cbn in Hn. rewrite Hn.
    rewrite bool_decide_eq_false_2, Hw, andb_false_r; [done|].
    intros [E _]. by apply other_ne in E.
  - intros Hx.
    destruct (rename_check dk (other to) id to id) as [e|src] eqn:Hr; [eauto|].
    apply rename_check_inr in Hr as [_ [x Hx']]. congruence.
Qed.

Lemma move_succeeds_witness :
  safeBasename "a1.md" = Some "a1.md" /\
  get_entry sample_board (other done) "a1.md" = Some (File true md_fix_bug) /\
  rename_check sample_board (other done) "a1.md" done "a1.md"
    = inr (File true md_fix_bug) /\
  exists resp dk',
    run (handle "/r" (move_request "a1.md" "done")) sample_board =
      (Ret resp,
       {| fs := dk';
          log := [ExistsSync (AtEntry pending "a1.md");
                  RenameSync pending "a1.md" done "a1.md"] |}) /\
    resp = json 200 Ok /\
    get_entry dk' done "a1.md" = Some (File true md_fix_bug) /\
    get_entry dk' pending "a1.md" = None /\
    (forall d f, f <> "a1.md" -> get_entry dk' d f = get_entry sample_board d f).
Proof.
  assert (safeBasename "a1.md" = Some "a1.md") as H1 by reflexivity.
  assert (get_entry sample_board (other done) "a1.md"
          = Some (File true md_fix_bug)) as H2 by reflexivity.
  assert (rename_check sample_board (other done) "a1.md" done "a1.md"
          = inr (File true md_fix_bug)) as H3 by reflexivity.
  split; [exact H1|]. split; [exact H2|]. split; [exact H3|].
  destruct (move_succeeds "/r" sample_board "a1.md" done _ H1 H2)
    as (resp & dk' & Hrun & _ & Hok & _).
  exists resp, dk'. split; [exact Hrun|]. exact (Hok H3).
Defined.

(** C1 as stated fails: [a1.md] is a valid id and an entry of [pending], the
    [done] directory is read-only, and the move to [done] is answered with
    HTTP 500; the entry stays in [pending]. The same happens when the
    [done] directory has been removed. *)
Lemma move_can_fail :
  safeBasename "a1.md" = Some "a1.md" /\
  get_entry locked_board pending "a1.md" = Some (File true md_fix_bug) /\
  run (handle "/r" (move_request "a1.md" "done")) locked_board =
    (Ret (json 500 (Error "EACCES: permission denied")),
     {| fs := locked_board;
        log := [ExistsSync (AtEntry pending "a1.md");
                RenameSync pending "a1.md" done "a1.md"] |}) /\
  get_entry no_done_board pending "a1.md" = Some (File true md_fix_bug) /\
  run (handle "/r" (move_request "a1.md" "done")) no_done_board =
    (Ret (json 500 (Error "ENOENT: no such file or directory")),
     {| fs := no_done_board;
        log := [ExistsSync (AtEntry pending "a1.md");
                RenameSync pending "a1.md" done "a1.md"] |}) /\
  json 500 (Error "EACCES: permission denied") <> json 200 Ok.
Proof. repeat split; try reflexivity. discriminate. Qed.

(** C8, as amended. A move request that passes validation and whose source
    exists makes one rename call, from the entry to the entry of the same
    name in the other directory, and does not throw. Every failure of that
    call is answered with HTTP 500 and a non-empty error string and leaves
    the disk as it was; a read-only destination and a directory of the same
    name at the destination of a regular file are such failures. A regular
    file of the same name at the destination is not: when both directories
    are writable the rename replaces it and the answer is HTTP 200 and ok. *)
Theorem move_rename_outcome root dk id to n :
  safeBasename id = Some id ->
  get_entry dk (other to) id = Some n ->
  exists resp dk',
    run (handle root (move_request id (label to))) dk =
      (Ret resp,
       {| fs := dk';
          log := [ExistsSync (AtEntry (other to) id);
                  RenameSync (other to) id to id] |}) /\
    (forall e, rename_check dk (other to) id to id = inl e ->
       resp = json 500 (Error (message e)) /\ message e <> "" /\ dk' = dk) /\
    (forall x, get_dir dk to = Some x -> writable x = false ->
       resp = json 500 (Error (message EACCES)) /\ dk' = dk) /\
    (forall r data e x1 x2,
       n = File r data -> get_entry dk to id = Some (Dir e) ->
       get_dir dk (other to) = Some x1 -> get_dir dk to = Some x2 ->
       writable x1 = true -> writable x2 = true ->
       resp = json 500 (Error (message EISDIR)) /\ dk' = dk) /\
    (forall r data r' data' x1 x2,
       n = File r data -> get_entry dk to id = Some (File r' data') ->
       get_dir dk (other to) = Some x1 -> get_dir dk to = Some x2 ->
       writable x1 = true -> writable x2 = true ->
       resp = json 200 Ok /\
       get_entry dk' to id = Some n /\ get_entry dk' (other to) id = None).
Proof.
  intros Hid Hn.
  assert (forall x1 x2, get_dir dk (other to) = Some x1 -> get_dir dk to = Some x2 ->
          rename_check dk (other to) id to id =
          if negb (writable x1 && writable x2) then inl EACCES
          else match clash n (get_entry dk to id) with
               | Some e => inl e
               | None => inr n
               end) as Hcheck.
  { intros x1 x2 H1 H2. rewrite (rename_check_dirs _ _ _ _ _ x1 x2 H1 H2).
    unfold get_entry in *. rewrite H1, H2 in *. simpl in *. rewrite Hn.
    rewrite bool_decide_eq_false_2; [done|].
    intros [E _]. by apply other_ne in E. }
  assert (exists x1, get_dir dk (other to) = Some x1) as [y1 Hy1].
  { unfold get_entry in Hn. destruct (get_dir dk (other to)); [eauto|done]. }
  exists (match rename_check dk (other to) id to id with
          | inl e => json 500 (Error (message e))
          | inr _ => json 200 Ok
          end),
         (match rename_check dk (other to) id to id with
          | inl _ => dk
          | inr src => put_entry (remove_entry dk (other to) id) to id src
          end).
  split; [|split; [|split; [|split]]].
  - run_move. rewrite Hn.
    by destruct (rename_check dk (other to) id to id).
  - intros e ->. split; [done|]. split; [apply message_nonempty|done].
  - intros x Hx Hw. rewrite (Hcheck y1 x Hy1 Hx), Hw, andb_false_r. done.
  - intros r data e x1 x2 -> He H1 H2 Hw1 Hw2.
    rewrite (Hcheck x1 x2 H1 H2), Hw1, Hw2, He. done.
  - intros r data r' data' x1 x2 -> He H1 H2 Hw1 Hw2.
    pose proof (Hcheck x1 x2 H1 H2) as Hr.
    rewrite Hw1, Hw2, He in Hr. simpl in Hr. rewrite Hr.
    split; [done|]. destruct (moved_disk dk id to _ Hr) as (Ha & Hb & _). done.
Qed.

Lemma move_rename_outcome_witness :
  safeBasename "a1.md" = Some "a1.md" /\
  get_entry locked_board (other done) "a1.md" = Some (File true md_fix_bug) /\
  exists resp dk',
    run (handle "/r" (move_request "a1.md" "done")) locked_board =
      (Ret resp,
       {| fs := dk';
          log := [ExistsSync (AtEntry pending "a1.md");
                  RenameSync pending "a1.md" done "a1.md"] |}) /\
    resp = json 500 (Error (message EACCES)) /\ dk' = locked_board.
Proof.
  assert (safeBasename "a1.md" = Some "a1.md") as H1 by reflexivity.
  assert (get_entry locked_board (other done) "a1.md"
          = Some (File true md_fix_bug)) as H2 by reflexivity.
  split; [exact H1|]. split; [exact H2|].
  destruct (move_rename_outcome "/r" locked_board "a1.md" done _ H1 H2)
    as (resp & dk' & Hrun & _ & Hlocked & _).
  exists resp, dk'. split; [exact Hrun|].
  exact (Hlocked {| listable := true; writable := false;
                    entries := list_to_map [] |}
           eq_refl eq_refl).
Defined.

(** C8 as stated fails: with [a1.md] in both directories, the move to [done]
    is answered with HTTP 200 and ok, and the file that was in [done] has
    been replaced by the one from [pending]. *)
Lemma move_replaces_on_collision :
  safeBasename "a1.md" = Some "a1.md" /\
  get_entry collision_board pending "a1.md" = Some (File true md_fix_bug) /\
  get_entry collision_board done "a1.md" = Some (File true "old") /\
  run (handle "/r" (move_request "a1.md" "done")) collision_board =
    (Ret (json 200 Ok),
     {| fs := board true [] true [("a1.md", File true md_fix_bug)];
        log := [ExistsSync (AtEntry pending "a1.md");
                RenameSync pending "a1.md" done "a1.md"] |}).
Proof. repeat split; vm_compute; reflexivity. Qed.

(** C6, as amended. For an id that passes validation, is an entry of
    [pending] and is not an entry of [done], if the move to [done] is
    answered with HTTP 200 and ok, then the move back to [pending] is too,
    and after it the disk is the one before the first move. *)
Theorem move_round_trip root dk id n w1 :
  safeBasename id = Some id ->
  get_entry dk pending id = Some n ->
  get_entry dk done id = None ->
  run (handle root (move_request id "done")) dk = (Ret (json 200 Ok), w1) ->
  exists w2,
    run (handle root (move_request id "pending")) (fs w1) = (Ret (json 200 Ok), w2) /\
    fs w2 = dk.
Proof.
  intros Hid Hn Hfree. unfold run, move_request.
  change "done" with (label done). change "pending" with (label pending).
  rewrite !handle_move, !api_move_valid by done. cbn [fs log other].
  rewrite Hn.
  destruct (rename_check dk pending id done id) as [e|src] eqn:Hr; [done|].
  intros [= <-]. cbn [fs].
  revert Hr Hn Hfree.
  unfold rename_check, get_entry, put_entry, remove_entry, get_dir, place_of.
  destruct dk as [[| |[lp wp ep]] [| |[ld wd ed]]]; simpl; try done.
  intros Hr Hn Hfree. rewrite Hn, Hfree in Hr.
  destruct wp, wd; simpl in Hr; try discriminate Hr.
  assert (src = n) as -> by (destruct n; simpl in Hr; congruence).
  rewrite lookup_insert_eq, lookup_delete_eq. simpl.
  replace (clash n None) with (@None error) by by destruct n.
  eexists. split; [reflexivity|]. simpl.
  rewrite delete_insert_id by done.
  rewrite insert_delete_id by done.
  reflexivity.
Qed.

Lemma move_round_trip_witness :
  safeBasename "a1.md" = Some "a1.md" /\
  get_entry sample_board pending "a1.md" = Some (File true md_fix_bug) /\
  get_entry sample_board done "a1.md" = None /\
  run (handle "/r" (move_request "a1.md" "done")) sample_board =
    (Ret (json 200 Ok),
     {| fs := board true [] true [("a1.md", File true md_fix_bug)];
        log := [ExistsSync (AtEntry pending "a1.md");
                RenameSync pending "a1.md" done "a1.md"] |}) /\
  exists w2,
    run (handle "/r" (move_request "a1.md" "pending"))
        (board true [] true [("a1.md", File true md_fix_bug)])
      = (Ret (json 200 Ok), w2) /\
    fs w2 = sample_board.
Proof.
  assert (safeBasename "a1.md" = Some "a1.md") as H1 by reflexivity.
  assert (get_entry sample_board pending "a1.md"
          = Some (File true md_fix_bug)) as H2 by reflexivity.
  assert (get_entry sample_board done "a1.md" = None) as H3 by reflexivity.
  assert (run (handle "/r" (move_request "a1.md" "done")) sample_board =
    (Ret (json 200 Ok),
     {| fs := board true [] true [("a1.md", File true md_fix_bug)];
        log := [ExistsSync (AtEntry pending "a1.md");
                RenameSync pending "a1.md" done "a1.md"] |})) as H4
    by (vm_compute; reflexivity).
  split; [exact H1|]. split; [exact H2|]. split; [exact H3|]. split; [exact H4|].
  exact (move_round_trip "/r" sample_board "a1.md" _ _ H1 H2 H3 H4).
Defined.

(** C6 as stated fails: with [a1.md] in both directories, both moves are
    answered with HTTP 200 and ok, and afterwards [done] has lost the file
    it had. *)
Lemma round_trip_loses_replaced_file :
  safeBasename "a1.md" = Some "a1.md" /\
  get_entry collision_board pending "a1.md" = Some (File true md_fix_bug) /\
  get_entry collision_board done "a1.md" = Some (File true "old") /\
  exists w1 w2,
    run (handle "/r" (move_request "a1.md" "done")) collision_board
      = (Ret (json 200 Ok), w1) /\
    run (handle "/r" (move_request "a1.md" "pending")) (fs w1)
      = (Ret (json 200 Ok), w2) /\
    get_entry (fs w2) pending "a1.md" = Some (File true md_fix_bug) /\
    get_entry (fs w2) done "a1.md" = None /\
    fs w2 <> collision_board.
Proof.
  split; [reflexivity|]. split; [reflexivity|]. split; [reflexivity|].
  eexists _, _. split; [vm_compute; reflexivity|].
  split; [vm_compute; reflexivity|].
  split; [vm_compute; reflexivity|].
  split; [vm_compute; reflexivity|].
  intros E. apply (f_equal (fun dk => get_entry dk done "a1.md")) in E.
  vm_compute in E. discriminate.
Qed.

(** ** The Todo Store *)

(** C4, as amended. [readTodos] of a path that holds nothing returns the
    empty list. Of a directory that can be listed it returns items whose ids
    are strictly one per entry whose name ends in [.md] (every such entry,
    no other name, no name twice), in lexicographic order of the names, each
    with the status label it was given. Of a directory that cannot be
    listed, and of a path that holds something else than a directory, it
    throws what [fs.readdirSync] throws. *)
Theorem readTodos_lists root dk dir st :
  match place_of dk dir with
  | Nothing => fst (run (readTodos root dir st) dk) = Ret []
  | NotADirectory => fst (run (readTodos root dir st) dk) = Throw ENOTDIR
  | Directory x =>
      if listable x then
        exists items,
          fst (run (readTodos root dir st) dk) = Ret items /\
          StronglySorted String.le (map id items) /\
          NoDup (map id items) /\
          (forall f, f ∈ map id items <->
                     is_Some (entries x !! f) /\ endsWith f ".md" = true) /\
          Forall (fun it => item_status it = st) items
      else fst (run (readTodos root dir st) dk) = Throw EACCES
  end.
Proof.
  unfold run. rewrite readTodos_run. cbn [fs log fst]. unfold lane.
  destruct (place_of dk dir) as [| |x]; [done|done|].
  destruct (listable x); [|done].
  eexists. split; [reflexivity|]. rewrite todo_ids.
  split; [apply listed_sorted|]. split; [apply listed_NoDup|].
  split; [apply elem_of_listed|].
  by apply Forall_map, Forall_true.
Qed.

(** C4 as stated fails: the [pending] directory of [unlistable_board]
    exists and holds [a1.md], and [readTodos] throws instead of returning
    an item; so it does when a regular file is at the path. *)
Lemma readTodos_throws_when_not_listable :
  fst (run (existsSync (AtDir pending)) unlistable_board) = Ret true /\
  get_entry unlistable_board pending "a1.md" = Some (File true md_fix_bug) /\
  fst (run (readTodos "/r" pending pending) unlistable_board) = Throw EACCES /\
  fst (run (existsSync (AtDir pending)) file_for_pending_board) = Ret true /\
  fst (run (readTodos "/r" pending pending) file_for_pending_board) = Throw ENOTDIR.
Proof. repeat split; reflexivity. Qed.

Lemma strip_md_unfold s :
  strip_md s =
  if String.eqb s ".md" then ""
  else match s with "" => "" | String c r => String c (strip_md r) end.
Proof. by destruct s. Qed.

Lemma length_append s t : String.length (s ++ t) = String.length s + String.length t.
Proof. induction s as [|c s IH]; [done|]. rewrite append_cons. simpl. by rewrite IH. Qed.

(** Removing the extension of a listed name gives what precedes it. *)
Lemma strip_md_app p : strip_md (p ++ ".md") = p.
Proof.
  induction p as [|c p IH]; [done|].
  rewrite append_cons, strip_md_unfold.
  destruct (String.eqb_spec (String c (p ++ ".md")) ".md") as [E|_].
  - apply (f_equal String.length) in E. simpl in E.
    rewrite length_append in E. simpl in E. lia.
  - by rewrite IH.
Qed.

Lemma parseFrontmatter_absent md :
  startsWith md "---" = false \/ indexOf md (String LF "---") 3 = None ->
  frontmatter (parseFrontmatter md) = empty_object.
Proof.
  unfold parseFrontmatter. intros [->| ->]; [done|].
  by destruct (startsWith md "---").
Qed.

Lemma todo_of_defaults dirPath st file md :
  frontmatter (parseFrontmatter md) = empty_object ->
  todo_of dirPath st file md =
  {| id := file; item_status := st; title := strip_md file; area := "general";
     created := ""; files := []; path := path_join dirPath file |}.
Proof.
  intros H. unfold todo_of. rewrite H. unfold obj_field. simpl.
  rewrite !lookup_empty. reflexivity.
Qed.

(** C5. For an entry [f] of a directory whose name ends in [.md]: when
    the directory can be listed, [readTodos] does not throw and its result
    holds the item built for [f] from the content read, taken to be empty
    when the entry is not a readable regular file (when the directory
    cannot be listed, what is thrown is the exception of the listing,
    whatever the entry is); content without an opening marker or without a
    closing one parses to the empty metadata set, and inside a block a line
    that is neither a key line nor a list item is passed over; an item built
    from empty metadata has the name without its extension as title,
    [general] as area, no date and no files. *)
Theorem readTodos_absorbs_bad_files root dk dir st x f n :
  get_dir dk dir = Some x ->
  entries x !! f = Some n ->
  is_md f = true ->
  exists p,
    (if listable x
     then exists items,
            fst (run (readTodos root dir st) dk) = Ret items /\
            todo_of (dir_path root dir) st f (text_of (Some n)) ∈ items
     else fst (run (readTodos root dir st) dk) = Throw EACCES) /\
    ((forall data, n <> File true data) -> text_of (Some n) = "") /\
    (forall md, startsWith md "---" = false \/
                indexOf md (String LF "---") 3 = None ->
                frontmatter (parseFrontmatter md) = empty_object) /\
    (forall state line, match_key_line line = None ->
                        match_item_line line = None ->
                        fm_step state line = state) /\
    f = p ++ ".md" /\
    (forall md, frontmatter (parseFrontmatter md) = empty_object ->
       todo_of (dir_path root dir) st f md =
       {| id := f; item_status := st; title := p; area := "general";
          created := ""; files := [];
          path := path_join (dir_path root dir) f |}).
Proof.
  intros Hd Hn Hmd.
  destruct (proj1 (endsWith_spec f ".md") Hmd) as [p Hp].
  unfold run. rewrite readTodos_run. cbn [fs log fst]. unfold lane.
  unfold get_dir in Hd. destruct (place_of dk dir) as [| |y]; [done|done|].
  injection Hd as ->.
  exists p. split; [|split; [|split; [|split; [|split]]]].
  - destruct (listable x); [|done].
    eexists. split; [reflexivity|]. rewrite <- Hn.
    apply (list_elem_of_fmap_2
             (fun f => todo_of (dir_path root dir) st f (text_of (entries x !! f)))).
    apply elem_of_listed. rewrite Hn. eauto.
  - intros Hbad. destruct n as [[] data|e]; simpl; try done.
    by destruct (Hbad data).
  - apply parseFrontmatter_absent.
  - intros state line Hk Hi. unfold fm_step. by rewrite Hk, Hi.
  - done.
  - intros md Hfm. rewrite (todo_of_defaults _ _ _ _ Hfm).
    rewrite Hp at 2. by rewrite strip_md_app.
Qed.

Lemma readTodos_absorbs_bad_files_witness :
  get_dir bad_files_board pending
    = Some {| listable := true; writable := true;
              entries := list_to_map [("a1.md", File true md_fix_bug);
                                      ("b.md", File false "secret");
                                      ("c.md", Dir false)] |} /\
  get_entry bad_files_board pending "b.md" = Some (File false "secret") /\
  is_md "b.md" = true /\
  exists items,
    fst (run (readTodos "/r" pending pending) bad_files_board) = Ret items /\
    {| id := "b.md"; item_status := pending; title := "b"; area := "general";
       created := ""; files := [];
       path := "/r/.planning/todos/pending/b.md" |} ∈ items.
Proof.
  assert (get_dir bad_files_board pending
    = Some {| listable := true; writable := true;
              entries := list_to_map [("a1.md", File true md_fix_bug);
                                      ("b.md", File false "secret");
                                      ("c.md", Dir false)] |}) as H1
    by reflexivity.
  assert (entries {| listable := true; writable := true;
              entries := list_to_map [("a1.md", File true md_fix_bug);
                                      ("b.md", File false "secret");
                                      ("c.md", Dir false)] |} !! "b.md"
          = Some (File false "secret")) as H2 by reflexivity.
  assert (is_md "b.md" = true) as H3 by reflexivity.
  split; [exact H1|]. split; [exact H2|]. split; [exact H3|].
  destruct (readTodos_absorbs_bad_files "/r" bad_files_board pending pending
              _ "b.md" _ H1 H2 H3)
    as (p & Hrun & _).
  exact Hrun.
Defined.



(** ** Metadata parsing *)

Lemma takeWhile_dropWhile p s : takeWhile p s ++ dropWhile p s = s.
Proof.
  induction s as [|c s IH]; [done|]. simpl.
  destruct (p c); [|done]. by rewrite append_cons, IH.
Qed.

Lemma dropWhile_head p s c r : dropWhile p s = String c r -> p c = false.
Proof.
  induction s as [|c' s IH]; simpl; [done|].
  destruct (p c') eqn:E; [done|]. by intros [= <- _].
Qed.

Lemma all_chars_dropWhile p q s : all_chars p s = true -> all_chars p (dropWhile q s) = true.
Proof.
  induction s as [|c s IH]; simpl; [done|].
  intros [Hc Hs]%andb_true_iff. destruct (q c); [auto|].
  simpl. by rewrite Hc, Hs.
Qed.

Lemma takeWhile_app p s c r :
  all_chars p s = true -> p c = false -> takeWhile p (s ++ String c r) = s.
Proof.
  intros Hs Hc. induction s as [|c' s IH].
  - rewrite append_nil_l. simpl. by rewrite Hc.
  - simpl in Hs. apply andb_true_iff in Hs as [Hc' Hs].
    rewrite append_cons. simpl. by rewrite Hc', IH.
Qed.

Lemma dropWhile_app p s t :
  all_chars p s = true -> dropWhile p (s ++ t) = dropWhile p t.
Proof.
  intros Hs. induction s as [|c' s IH]; [done|].
  simpl in Hs. apply andb_true_iff in Hs as [Hc' Hs].
  rewrite append_cons. simpl. by rewrite Hc', IH.
Qed.

(** A line for which [match_key_line] answers has the shape of the pattern,
    and the white space taken is the longest run. *)
Lemma match_key_line_sound line key value :
  match_key_line line = Some (key, value) ->
  exists ws, key_line_shape line key ws value /\
             dropWhile is_space value = value.
Proof.
  unfold match_key_line.
  pose proof (takeWhile_dropWhile is_key_char line) as Hsplit.
  pose proof (all_chars_takeWhile is_key_char line) as Hkey.
  destruct (takeWhile is_key_char line) as [|k ks]; [done|].
  destruct (dropWhile is_key_char line) as [|c rest]; [done|].
  destruct (Ascii.eqb_spec c ":") as [->|]; [|done].
  pose proof (takeWhile_dropWhile is_space rest) as Hrest.
  pose proof (all_chars_takeWhile is_space rest) as Hws.
  destruct (all_chars is_dot_char (dropWhile is_space rest)) eqn:Hdot; [|done].
  intros [= <- <-]. exists (takeWhile is_space rest).
  split.
  - repeat split; try done. by rewrite Hrest.
  - destruct (dropWhile is_space rest) as [|c r] eqn:E; [done|].
    apply dropWhile_head in E. simpl. by rewrite E.
Qed.

(** A line of the shape of the pattern is answered, with the same key and
    with the value left after the longest run of white space. *)
Lemma match_key_line_complete line key ws value :
  key_line_shape line key ws value ->
  match_key_line line = Some (key, dropWhile is_space value).
Proof.
  intros (-> & Hne & Hkey & Hws & Hdot). unfold match_key_line.
  change (key ++ ":" ++ ws ++ value) with (key ++ String ":" (ws ++ value)).
  rewrite takeWhile_app by done.
  replace (dropWhile is_key_char (key ++ String ":" (ws ++ value)))
    with (String ":" (ws ++ value)) by by rewrite dropWhile_app.
  destruct key as [|k ks]; [done|].
  rewrite Ascii.eqb_refl, dropWhile_app by done.
  by rewrite all_chars_dropWhile.
Qed.

Lemma match_item_line_sound line value :
  match_item_line line = Some value ->
  exists ws1 ws2, item_line_shape line ws1 ws2 value /\
                  dropWhile is_space value = value.
Proof.
  unfold match_item_line.
  pose proof (takeWhile_dropWhile is_space line) as Hsplit.
  pose proof (all_chars_takeWhile is_space line) as Hws1.
  destruct (dropWhile is_space line) as [|c rest]; [done|].
  destruct (Ascii.eqb_spec c "-") as [->|]; [|done].
  pose proof (takeWhile_dropWhile is_space rest) as Hrest.
  pose proof (all_chars_takeWhile is_space rest) as Hws2.
  destruct (all_chars is_dot_char (dropWhile is_space rest)) eqn:Hdot; [|done].
  intros [= <-]. exists (takeWhile is_space line), (takeWhile is_space rest).
  split.
  - repeat split; try done. by rewrite Hrest.
  - destruct (dropWhile is_space rest) as [|c r] eqn:E; [done|].
    apply dropWhile_head in E. simpl. by rewrite E.
Qed.

Lemma match_item_line_complete line ws1 ws2 value :
  item_line_shape line ws1 ws2 value ->
  match_item_line line = Some (dropWhile is_space value).
Proof.
  intros (-> & Hws1 & Hws2 & Hdot). unfold match_item_line.
  rewrite dropWhile_app by done.
  change ("-" ++ ws2 ++ value) with (String "-" (ws2 ++ value)).
  simpl. rewrite dropWhile_app by done.
  by rewrite all_chars_dropWhile.
Qed.

Lemma obj_get_array_set_items o k l :
  obj_get_array (obj_set o k (Items l)) k = Some l.
Proof.
  unfold obj_get_array, obj_set.
  destruct (String.eqb k "__proto__"); simpl; [done|].
  by rewrite lookup_insert_eq.
Qed.

Lemma own_set_eq o k v :
  k <> "__proto__" -> own (obj_set o k v) !! k = Some v.
Proof.
  intros Hk%String.eqb_neq. unfold obj_set. rewrite Hk. simpl.
  apply lookup_insert_eq.
Qed.

Lemma own_set_other o k v name :
  k <> name -> own (obj_set o k v) !! name = own o !! name.
Proof.
  intros Hk. unfold obj_set.
  destruct (String.eqb k "__proto__"); [by destruct v|].
  simpl. by apply lookup_insert_ne.
Qed.

Lemma fm_step_key st line key value :
  match_key_line line = Some (key, value) ->
  fm_step st line =
  (obj_set (fst st) key (if String.eqb value "" then Items [] else Scalar value),
   Some key).
Proof. unfold fm_step. by intros ->. Qed.

Lemma fm_step_item fm key line x :
  item_line line x ->
  fm_step (fm, Some key) line = (obj_push fm key x, Some key).
Proof. unfold fm_step. by intros [-> ->]. Qed.

(** List items read while [key] holds an array are appended to it. *)
Lemma fm_items_appended lines : forall xs fm key l,
  obj_get_array fm key = Some l ->
  Forall2 item_line lines xs ->
  snd (fold_left fm_step lines (fm, Some key)) = Some key /\
  obj_get_array (fst (fold_left fm_step lines (fm, Some key))) key = Some (l ++ xs)%list.
Proof.
  induction lines as [|line lines IH]; intros xs fm key l Hl Hitems.
  - apply Forall2_nil_inv_l in Hitems as ->. by rewrite app_nil_r.
  - apply Forall2_cons_inv_l in Hitems as (x & xs' & Hx & Hxs & ->).
    cbn [fold_left]. rewrite (fm_step_item _ _ _ _ Hx).
    assert (obj_get_array (obj_push fm key x) key = Some (l ++ [x])%list) as Hpush.
    { unfold obj_push. rewrite Hl. apply obj_get_array_set_items. }
    destruct (IH xs' _ _ _ Hpush Hxs) as [Hkey Harr].
    split; [done|]. rewrite Harr. by rewrite <- app_assoc.
Qed.

(** Lines that are not key lines leave a scalar as it is. *)
Lemma fm_scalar_kept lines : forall fm key value,
  key <> "__proto__" ->
  own fm !! key = Some (Scalar value) ->
  Forall (fun l => match_key_line l = None) lines ->
  fold_left fm_step lines (fm, Some key) = (fm, Some key).
Proof.
  induction lines as [|line lines IH]; intros fm key value Hk Hv Hlines; [done|].
  apply Forall_cons in Hlines as [Hline Hlines].
  cbn [fold_left].
  assert (fm_step (fm, Some key) line = (fm, Some key)) as ->; [|by eapply IH].
  unfold fm_step. rewrite Hline.
  destruct (match_item_line line) as [x|]; [|done]. simpl.
  unfold obj_push, obj_get_array.
  apply String.eqb_neq in Hk. by rewrite Hk, Hv.
Qed.

(** Lines that neither assign [key] nor add an item to it leave what [key]
    holds as it is. *)
Lemma fm_untouched_kept key lines : forall fm cur,
  untouched key cur lines = true ->
  own (fst (fold_left fm_step lines (fm, cur))) !! key = own fm !! key.
Proof.
  induction lines as [|line lines IH]; intros fm cur Hlines; [done|].
  cbn [untouched] in Hlines. cbn [fold_left]. unfold fm_step. cbn [fst snd].
  destruct (match_key_line line) as [[k v]|].
  - apply andb_true_iff in Hlines as [Hk%negb_true_iff%String.eqb_neq Hlines].
    rewrite (IH _ _ Hlines). by apply own_set_other.
  - destruct (match_item_line line) as [x|], cur as [c|]; try by apply IH.
    apply andb_true_iff in Hlines as [Hc%negb_true_iff%String.eqb_neq Hlines].
    rewrite (IH _ _ Hlines). unfold obj_push.
    destruct (obj_get_array fm c); [|done]. by apply own_set_other.
Qed.

Lemma own_of_array fm key l :
  key <> "__proto__" -> obj_get_array fm key = Some l ->
  own fm !! key = Some (Items l).
Proof.
  intros Hk%String.eqb_neq. unfold obj_get_array. rewrite Hk.
  destruct (own fm !! key) as [[]|]; congruence.
Qed.

(** What [key] holds after a line [key:] with no value, the list items
    [xs] right after it, and lines that do not touch [key] *)
Lemma fm_lines_list key pre line items xs post :
  key <> "__proto__" ->
  match_key_line line = Some (key, "") ->
  Forall2 item_line items xs ->
  untouched key (Some key) post = true ->
  obj_field (fm_lines (pre ++ line :: items ++ post)) key = Some (Items xs).
Proof.
  intros Hk Hline Hitems Hpost. unfold obj_field, fm_lines.
  rewrite fold_left_app. cbn [fold_left]. rewrite fold_left_app.
  rewrite (fm_step_key _ _ _ _ Hline). cbn [String.eqb].
  set (fm0 := obj_set _ key (Items [])).
  destruct (fm_items_appended items xs fm0 key []
              (obj_get_array_set_items _ _ _) Hitems) as [Hcur Harr].
  destruct (fold_left fm_step items (fm0, Some key)) as [fm1 cur] eqn:E.
  cbn [fst snd] in *. subst cur.
  rewrite (fm_untouched_kept key post _ _ Hpost).
  by apply own_of_array.
Qed.

(** C10, as amended. In the loop over the lines of the metadata block:
    a key line with an empty value records the empty list under its key and
    makes the key current; list items read while a key holds a list are
    appended to it in order; after a key line with a non-empty value, for a
    key other than [__proto__], lines that are not key lines change nothing,
    so the key holds its string. In the item built: when [title] holds a
    list the title is the items joined by commas and trimmed, or, if that
    is empty, the file name without its extension; so a [title:] line with
    no value after which no item is added to [title] gives that fallback.
    The [files] field is the list that [files] holds when it holds one, in
    particular the items right after a [files:] line with no value, and is
    empty when [files] holds a string or nothing. *)
Theorem frontmatter_lists_and_scalars :
  (forall st line key,
     match_key_line line = Some (key, "") ->
     fm_step st line = (obj_set (fst st) key (Items []), Some key) /\
     obj_get_array (fst (fm_step st line)) key = Some []) /\
  (forall fm key l lines xs,
     obj_get_array fm key = Some l ->
     Forall2 item_line lines xs ->
     snd (fold_left fm_step lines (fm, Some key)) = Some key /\
     obj_get_array (fst (fold_left fm_step lines (fm, Some key))) key
       = Some (l ++ xs)%list) /\
  (forall st line key value lines,
     key <> "__proto__" ->
     match_key_line line = Some (key, value) ->
     value <> "" ->
     Forall (fun l => match_key_line l = None) lines ->
     fold_left fm_step lines (fm_step st line) = fm_step st line /\
     own (fst (fm_step st line)) !! key = Some (Scalar value)) /\
  (forall dirPath st file md l,
     obj_field (frontmatter (parseFrontmatter md)) "title" = Some (Items l) ->
     title (todo_of dirPath st file md)
       = or_else (trim (String.concat "," l)) (strip_md file)) /\
  (forall dirPath st file md pre line post,
     frontmatter (parseFrontmatter md) = fm_lines (pre ++ line :: post) ->
     match_key_line line = Some ("title", "") ->
     untouched "title" (Some "title") post = true ->
     title (todo_of dirPath st file md) = strip_md file) /\
  (forall dirPath st file md,
     files (todo_of dirPath st file md) =
     match obj_field (frontmatter (parseFrontmatter md)) "files" with
     | Some (Items l) => l
     | _ => []
     end) /\
  (forall dirPath st file md pre line items xs post,
     frontmatter (parseFrontmatter md) = fm_lines (pre ++ line :: items ++ post) ->
     match_key_line line = Some ("files", "") ->
     Forall2 item_line items xs ->
     untouched "files" (Some "files") post = true ->
     files (todo_of dirPath st file md) = xs).
Proof.
  split; [|split; [|split; [|split; [|split; [|split]]]]].
  - intros st line key Hline. rewrite (fm_step_key _ _ _ _ Hline).
    split; [done|]. apply obj_get_array_set_items.
  - intros fm key l lines xs Hl Hitems. by apply fm_items_appended.
  - intros st line key value lines Hk Hline Hv%String.eqb_neq Hlines.
    rewrite (fm_step_key _ _ _ _ Hline), Hv. cbn [fst].
    split; [|by apply own_set_eq].
    eapply fm_scalar_kept; [done| |done]. by apply own_set_eq.
  - intros dirPath st file md l Hl. unfold todo_of. cbn [title].
    by rewrite Hl.
  - intros dirPath st file md pre line post Hfm Hline Hpost.
    unfold todo_of. cbn [title]. rewrite Hfm.
    change (pre ++ line :: post)%list with (pre ++ line :: [] ++ post)%list.
    by rewrite (fm_lines_list "title" pre line [] [] post).
  - done.
  - intros dirPath st file md pre line items xs post Hfm Hline Hitems Hpost.
    unfold todo_of. cbn [files]. rewrite Hfm.
    by rewrite (fm_lines_list "files" pre line items xs post).
Qed.

Lemma frontmatter_lists_and_scalars_witness :
  frontmatter (parseFrontmatter md_title_empty)
    = fm_lines ([] ++ "title:" :: ["area: api"; "files:"; "  - src/a.js"]) /\
  match_key_line "title:" = Some ("title", "") /\
  untouched "title" (Some "title") ["area: api"; "files:"; "  - src/a.js"] = true /\
  match_key_line "files:" = Some ("files", "") /\
  Forall2 item_line ["  - src/a.js"] ["src/a.js"] /\
  title (todo_of "/r/p" pending "a1.md" md_title_empty) = strip_md "a1.md" /\
  files (todo_of "/r/p" pending "a1.md" md_title_empty) = ["src/a.js"].
Proof.
  assert (frontmatter (parseFrontmatter md_title_empty)
    = fm_lines ([] ++ "title:" :: ["area: api"; "files:"; "  - src/a.js"]))
    as H1 by (vm_compute; reflexivity).
  assert (match_key_line "title:" = Some ("title", "")) as H2 by reflexivity.
  assert (untouched "title" (Some "title")
            ["area: api"; "files:"; "  - src/a.js"] = true) as H3 by reflexivity.
  assert (match_key_line "files:" = Some ("files", "")) as H4 by reflexivity.
  assert (Forall2 item_line ["  - src/a.js"] ["src/a.js"]) as H5
    by (repeat constructor).
  destruct frontmatter_lists_and_scalars
    as (_ & _ & _ & _ & Htitle & _ & Hfiles).
  split; [exact H1|]. split; [exact H2|]. split; [exact H3|].
  split; [exact H4|]. split; [exact H5|]. split.
  - exact (Htitle "/r/p" pending "a1.md" md_title_empty [] "title:" _ H1 H2 H3).
  - exact (Hfiles "/r/p" pending "a1.md" md_title_empty
             ["title:"; "area: api"] "files:" ["  - src/a.js"] ["src/a.js"] []
             H1 H4 H5 eq_refl).
Defined.

(** C10 as stated fails twice. With list items after a [title:] line that
    has no value, the title of the item is the items joined by commas, not
    the file name without its extension. And once a line [__proto__:] with
    no value has been read, a line [__proto__: x], whose value is not
    empty, is followed by a list item that is appended to what that key
    holds. *)
Lemma title_taken_from_items :
  (match_key_line "title:" = Some ("title", "") /\
   frontmatter (parseFrontmatter md_title_items)
     = fm_lines ["title:"; "- foo"; "- bar"] /\
   title (todo_of "/r/p" pending "a1.md" md_title_items) = "foo,bar" /\
   strip_md "a1.md" = "a1") /\
  (match_key_line "__proto__: x" = Some ("__proto__", "x") /\
   frontmatter (parseFrontmatter md_proto)
     = fm_lines ["__proto__:"; "__proto__: x"; "- foo"] /\
   obj_get_array (fm_lines ["__proto__:"; "__proto__: x"]) "__proto__" = Some [] /\
   obj_get_array (fm_lines ["__proto__:"; "__proto__: x"; "- foo"]) "__proto__"
     = Some ["foo"]).
Proof. repeat split; vm_compute; reflexivity. Qed.

(** ** The launcher *)

(** Splits on which flag [a] is. *)
Ltac flag_cases a :=
  destruct (String.eqb_spec a "--host") as [->|?];
  [|destruct (String.eqb_spec a "--port") as [->|?];
   [|destruct (String.eqb_spec a "-p") as [->|?];
    [|destruct (String.eqb_spec a "--no-open") as [->|?];
     [|destruct (String.eqb_spec a "--open") as [->|?];
      [|destruct (String.eqb_spec a "--cwd") as [->|?];
       [|destruct (String.eqb_spec a "-C") as [->|?];
        [|destruct (String.eqb_spec a "--help") as [->|?];
         [|destruct (String.eqb_spec a "-h") as [->|?]]]]]]]]].

Section LauncherFacts.
Variable Number : string -> option Q.
Variable process_cwd : string.

Lemma parse_step_other a next args skip take :
  is_flag a = false -> parse_step Number a next args skip take = skip args.
Proof.
  intros H. unfold parse_step.
  flag_cases a; try discriminate H.
  cbn [andb orb]. reflexivity.
Qed.

Lemma parse_step_no_value a next args skip take :
  takes_value a = false ->
  parse_step Number a next args skip take = parse_step Number a "" args skip take.
Proof.
  intros H. unfold parse_step.
  flag_cases a; try discriminate H; reflexivity.
Qed.

Lemma parse_step_falsy a args skip take :
  takes_value a = true -> parse_step Number a "" args skip take = skip args.
Proof.
  intros H. unfold parse_step.
  flag_cases a; try discriminate H; reflexivity.
Qed.

Lemma parse_loop_cons a tl args :
  parse_loop Number args (a :: tl) =
  parse_step Number a (hd "" tl) args
    (fun args' => parse_loop Number args' tl)
    (fun args' => match tl with
                  | _ :: tl' => parse_loop Number args' tl'
                  | [] => Value args'
                  end).
Proof. reflexivity. Qed.

(** Strong induction on the arguments left: a turn of the loop goes on with
    the tail or with the tail of the tail. *)
Lemma parse_loop_induction (P : list string -> Prop) :
  P [] ->
  (forall a, P [] -> P [a]) ->
  (forall a v tl, P (v :: tl) -> P tl -> P (a :: v :: tl)) ->
  forall l, P l.
Proof.
  intros Hnil Hone Hcons.
  assert (forall l, P l /\ forall a, P (a :: l)) as H; [|intros l; apply H].
  induction l as [|v tl [IH1 IH2]]; split; auto.
Qed.


Lemma truthy_nonempty v : truthy v = true -> v <> "".
Proof. unfold truthy. by intros H%negb_true_iff%String.eqb_neq. Qed.

(** A property of the arguments that every assignment of the loop keeps
    holds of what the loop returns. *)
Lemma parse_loop_invariant (I : kanban_args -> Prop) :
  (forall a v, I a -> v <> "" -> I (set_host a v)) ->
  (forall a n, I a -> (0 < n)%Q -> I (set_port a n)) ->
  (forall a b, I a -> I (set_open a b)) ->
  (forall a v, I a -> v <> "" -> I (set_cwd a v)) ->
  (forall a, I a -> I (set_help a)) ->
  forall rest a args, I a -> parse_loop Number a rest = Value args -> I args.
Proof.
  intros Hhost Hport Hopen Hcwd Hhelp.
  induction rest as [|a0 IH|a0 v tl IH1 IH2] using parse_loop_induction;
    intros a args Ha.
  - by intros [= <-].
  - rewrite parse_loop_cons. unfold parse_step. cbn [hd truthy String.eqb negb].
    rewrite !andb_false_r.
    repeat (case_match; try (intros [= <-]; auto)).
  - rewrite parse_loop_cons. unfold parse_step. cbn [hd].
    destruct (truthy v) eqn:Hv; rewrite ?andb_true_r, ?andb_false_r.
    + apply truthy_nonempty in Hv.
      destruct (String.eqb a0 "--host"); [apply IH2; auto|].
      destruct (String.eqb a0 "--port" || String.eqb a0 "-p").
      { destruct (Number v) as [n|]; [|done].
        destruct (Qle_bool n 0) eqn:Hn; [done|].
        apply IH2, Hport; [done|].
        apply Qnot_le_lt. intros Hle. apply Qle_bool_iff in Hle. congruence. }
      destruct (String.eqb a0 "--no-open"); [apply IH1; auto|].
      destruct (String.eqb a0 "--open"); [apply IH1; auto|].
      destruct (String.eqb a0 "--cwd" || String.eqb a0 "-C"); [apply IH2; auto|].
      destruct (String.eqb a0 "--help" || String.eqb a0 "-h"); apply IH1; auto.
    + destruct (String.eqb a0 "--no-open"); [apply IH1; auto|].
      destruct (String.eqb a0 "--open"); [apply IH1; auto|].
      destruct (String.eqb a0 "--help" || String.eqb a0 "-h"); apply IH1; auto.
Qed.

(** X1. Whatever the command line, when [parseArgs] returns, the port it
    returns is finite and positive and the host is not empty. *)
Theorem parseArgs_port_positive argv args :
  parseArgs Number process_cwd argv = Value args ->
  (0 < port args)%Q /\ host args <> "".
Proof.
  apply (parse_loop_invariant (fun a => (0 < port a)%Q /\ host a <> ""));
    try (by intros ? ? []); try (by intros ? []); done.
Qed.

(** X2. The first two elements of [argv] are never read, and arguments that
    are not flags are passed over: a command line with no flag after its
    first two elements gives the defaults. *)
Theorem parseArgs_ignores_unknown node script rest :
  Forall (fun a => is_flag a = false) rest ->
  parseArgs Number process_cwd (node :: script :: rest) = Value (default_args process_cwd).
Proof.
  unfold parseArgs. change (drop 2 (node :: script :: rest)) with rest.
  generalize (default_args process_cwd).
  induction rest as [|a tl IH]; intros args Hrest; [done|].
  apply Forall_cons in Hrest as [Ha Htl].
  rewrite parse_loop_cons, parse_step_other by done. by apply IH.
Qed.

Lemma parse_step_bind a next args skip take (k : kanban_args -> thrown kanban_args) :
  match parse_step Number a next args skip take with
  | Value x => k x
  | Thrown msg => Thrown msg
  end =
  parse_step Number a next args
    (fun x => match skip x with Value y => k y | Thrown msg => Thrown msg end)
    (fun x => match take x with Value y => k y | Thrown msg => Thrown msg end).
Proof.
  unfold parse_step.
  repeat (match goal with
          | |- context [match Number ?n with _ => _ end] => destruct (Number n)
          | |- context [if ?c then _ else _] => destruct c
          end; try reflexivity).
Qed.

(** A turn calls [take] when the flag reads the next argument and there is
    one, and [skip] otherwise. *)
Lemma parse_step_ext a next args skip skip' take take' :
  (takes_value a && truthy next = false -> forall x, skip x = skip' x) ->
  (takes_value a && truthy next = true -> forall x, take x = take' x) ->
  parse_step Number a next args skip take = parse_step Number a next args skip' take'.
Proof.
  intros Hskip Htake. destruct (is_flag a) eqn:Hf.
  - unfold is_flag, takes_value in Hf.
    apply orb_true_iff in Hf as [Hf|Hf]; apply bool_decide_eq_true in Hf;
      repeat (apply elem_of_cons in Hf as [->|Hf]);
      try (by apply elem_of_nil in Hf).
    all: unfold parse_step; destruct (truthy next);
      try specialize (Htake eq_refl); try specialize (Hskip eq_refl);
      cbn [String.eqb Ascii.eqb Bool.eqb andb orb];
      try (destruct (Number next) as [n|]; [destruct (Qle_bool n 0)|]);
      auto.
  - rewrite !parse_step_other by done. apply Hskip.
    unfold is_flag in Hf. apply orb_false_iff in Hf as [-> _]. done.
Qed.

(** The loop over [l1 ++ l2] is the loop over [l1] followed by the loop over
    [l2], unless [l1] ends on a flag still waiting for its value. *)
Lemma parse_loop_app l1 : forall l2 args,
  dangling l1 = false ->
  parse_loop Number args (l1 ++ l2) =
  match parse_loop Number args l1 with
  | Value args' => parse_loop Number args' l2
  | Thrown msg => Thrown msg
  end.
Proof.
  induction l1 as [|a IH|a v tl IH1 IH2] using parse_loop_induction;
    intros l2 args Hd.
  - done.
  - cbn [dangling] in Hd.
    destruct (takes_value a) eqn:Ha; [done|].
    cbn [app]. rewrite !parse_loop_cons, parse_step_bind. cbn [hd].
    rewrite (parse_step_no_value _ (hd "" l2)) by done.
    apply parse_step_ext; rewrite Ha; [done|discriminate].
  - cbn [dangling] in Hd. cbn [app]. rewrite !parse_loop_cons, parse_step_bind.
    cbn [hd]. apply parse_step_ext; intros Hc x.
    + apply (IH1 l2 x). destruct (takes_value a); [|done].
      cbn [andb] in Hc. by rewrite Hc in Hd.
    + apply andb_true_iff in Hc as [Ha Hv]. rewrite Ha, Hv in Hd. by apply IH2.
Qed.

(** X3. Arguments are read from left to right: if the arguments [l1] do not
    end on a flag still waiting for its value and give [args1], then the
    result for [l1 ++ l2] is that of the loop over [l2] started from
    [args1]. So of [--open] and [--no-open] the one given last decides. *)
Theorem parseArgs_left_to_right node script l1 args1 :
  dangling l1 = false ->
  parseArgs Number process_cwd (node :: script :: l1) = Value args1 ->
  (forall l2, parseArgs Number process_cwd (node :: script :: l1 ++ l2)
              = parse_loop Number args1 l2) /\
  parseArgs Number process_cwd (node :: script :: l1 ++ ["--no-open"])
    = Value (set_open args1 false) /\
  parseArgs Number process_cwd (node :: script :: l1 ++ ["--open"])
    = Value (set_open args1 true).
Proof.
  unfold parseArgs. intros Hd H1.
  change (drop 2 (node :: script :: l1)) with l1 in H1.
  assert (forall l2, parse_loop Number (default_args process_cwd) (l1 ++ l2)
                     = parse_loop Number args1 l2) as Happ.
  { intros l2. by rewrite parse_loop_app, H1. }
  split; [|split].
  - intros l2. apply Happ.
  - change (drop 2 (node :: script :: l1 ++ ["--no-open"])) with (l1 ++ ["--no-open"])%list.
    by rewrite Happ.
  - change (drop 2 (node :: script :: l1 ++ ["--open"])) with (l1 ++ ["--open"])%list.
    by rewrite Happ.
Qed.

Variable path_resolve : string -> string.

Lemma parse_loop_help rest a args :
  help a = true -> parse_loop Number a rest = Value args -> help args = true.
Proof. apply (parse_loop_invariant (fun a => help a = true)); auto. Qed.

(** X4. A help flag in a place where a flag is read makes [main] print the
    usage, or stop on an invalid port given after it; in both cases no
    directory is created and the disk is as it was. *)
Theorem main_help_only_prints node script l1 h l2 args1 dk :
  dangling l1 = false ->
  parseArgs Number process_cwd (node :: script :: l1) = Value args1 ->
  h = "--help" \/ h = "-h" ->
  snd (main Number process_cwd path_resolve (node :: script :: l1 ++ h :: l2) dk) = dk /\
  (fst (main Number process_cwd path_resolve (node :: script :: l1 ++ h :: l2) dk) = Usage \/
   exists msg,
     fst (main Number process_cwd path_resolve (node :: script :: l1 ++ h :: l2) dk)
       = Crash msg).
Proof.
  intros Hd H1 Hh. unfold main, parseArgs in *.
  change (drop 2 (node :: script :: l1)) with l1 in H1.
  change (drop 2 (node :: script :: l1 ++ h :: l2)) with (l1 ++ h :: l2)%list.
  rewrite parse_loop_app, H1 by done.
  assert (parse_loop Number args1 (h :: l2) = parse_loop Number (set_help args1) l2) as ->.
  { rewrite parse_loop_cons. destruct Hh as [-> | ->]; reflexivity. }
  destruct (parse_loop Number (set_help args1) l2) as [args|msg] eqn:E.
  - apply parse_loop_help in E; [|done]. rewrite E. auto.
  - eauto.
Qed.

(** The ports [server.listen] takes among the positive numbers *)
Lemma port_accepted_spec p :
  (0 < p)%Q ->
  port_accepted p = true <->
  exists n : Z, (1 <= n <= 65535)%Z /\ (p == inject_Z n)%Q.
Proof.
  intros Hpos. unfold port_accepted. rewrite !andb_true_iff.
  rewrite Qeq_bool_iff, !Qle_bool_iff. split.
  - intros [[Hint _] Hle]. exists (Qfloor p).
    split; [|by symmetry].
    rewrite <- Hint in Hpos, Hle.
    change 0%Q with (inject_Z 0) in Hpos. rewrite <- Zlt_Qlt in Hpos.
    change 65535%Q with (inject_Z 65535) in Hle. rewrite <- Zle_Qle in Hle.
    lia.
  - intros (n & Hn & Hp).
    assert (Qfloor p = n) as Hfloor by (rewrite Hp; apply Qfloor_Z).
    rewrite Hfloor. split; [split|].
    + by symmetry.
    + by apply Qlt_le_weak.
    + rewrite Hp. change 65535%Q with (inject_Z 65535). rewrite <- Zle_Qle. lia.
Qed.

(** X21. Once [parseArgs] has returned options without a help flag, [main]
    creates the managed directories before it starts the server: the disk
    it leaves is the one [ensureTodoDirs] leaves, also when
    [server.listen] then refuses the port. It fails with the exception of
    [ensureTodoDirs] when there is one; otherwise it gets to listen on the
    host and port of the options exactly when the port is a whole number
    from 1 to 65535, and fails on the port when it is not. *)
Theorem main_creates_directories_first argv args dk :
  parseArgs Number process_cwd argv = Value args ->
  help args = false ->
  snd (main Number process_cwd path_resolve argv dk) = snd (ensureTodoDirs dk) /\
  (forall e, fst (ensureTodoDirs dk) = Throw e ->
     fst (main Number process_cwd path_resolve argv dk) = Crash (message e)) /\
  (fst (ensureTodoDirs dk) = Ret tt ->
     ((exists n : Z, (1 <= n <= 65535)%Z /\ (port args == inject_Z n)%Q) ->
      fst (main Number process_cwd path_resolve argv dk)
      = Serving (host args) (port args) (path_resolve (cwd args)) (open args)) /\
     (~ (exists n : Z, (1 <= n <= 65535)%Z /\ (port args == inject_Z n)%Q) ->
      fst (main Number process_cwd path_resolve argv dk) = BadPort (port args))).
Proof.
  intros Hargs Hhelp.
  assert ((0 < port args)%Q) as Hpos.
  { revert Hargs.
    apply (parse_loop_invariant (fun a => (0 < port a)%Q)); try done. }
  pose proof (port_accepted_spec _ Hpos) as Hport.
  unfold main. rewrite Hargs, Hhelp.
  destruct (ensureTodoDirs dk) as [[[]|e] dk'] eqn:He; cbn [fst snd].
  - destruct (port_accepted (port args)).
    + split; [done|]. split; [done|]. intros _. split; [done|].
      intros Hno. destruct Hno. by apply Hport.
    + split; [done|]. split; [done|]. intros _. split; [|done].
      intros Hyes. apply Hport in Hyes. discriminate.
  - split; [done|]. split; [by intros e' [= <-]|done].
Qed.

End LauncherFacts.

Lemma parseArgs_port_positive_witness :
  parseArgs sample_Number "/home/u" ["node"; "kanban.js"; "-p"; "8080"; "--no-open"]
    = Value {| host := "127.0.0.1"; port := 8080; open := false;
               cwd := "/home/u"; help := false |} /\
  (0 < 8080)%Q /\ "127.0.0.1" <> "".
Proof.
  assert (parseArgs sample_Number "/home/u"
            ["node"; "kanban.js"; "-p"; "8080"; "--no-open"]
          = Value {| host := "127.0.0.1"; port := 8080; open := false;
                     cwd := "/home/u"; help := false |}) as H by reflexivity.
  split; [exact H|].
  exact (parseArgs_port_positive sample_Number "/home/u" _ _ H).
Defined.

Lemma main_creates_directories_first_witness :
  parseArgs sample_Number "/home/u" ["node"; "kanban.js"; "-p"; "2.5"]
    = Value {| host := "127.0.0.1"; port := 2.5; open := true;
               cwd := "/home/u"; help := false |} /\
  main sample_Number "/home/u" (fun p => p) ["node"; "kanban.js"; "-p"; "2.5"]
       no_done_board
  = (BadPort 2.5, board true [("a1.md", File true md_fix_bug)] true []).
Proof.
  assert (parseArgs sample_Number "/home/u" ["node"; "kanban.js"; "-p"; "2.5"]
          = Value {| host := "127.0.0.1"; port := 2.5; open := true;
                     cwd := "/home/u"; help := false |}) as H by reflexivity.
  split; [exact H|].
  destruct (main_creates_directories_first sample_Number "/home/u" (fun p => p)
              _ _ no_done_board H eq_refl) as (Hdisk & _ & Hport).
  destruct (Hport eq_refl) as [_ Hbad].
  rewrite (surjective_pairing (main _ _ _ _ _)), Hdisk, Hbad.
  - reflexivity.
  - intros (n & Hn & Hp). unfold Qeq in Hp. cbn in Hp. lia.
Defined.

Lemma parseArgs_ignores_unknown_witness :
  Forall (fun a => is_flag a = false) ["serve"; "-x"; "8080"] /\
  parseArgs sample_Number "/home/u" ["--help"; "--port"; "serve"; "-x"; "8080"]
    = Value (default_args "/home/u").
Proof.
  assert (Forall (fun a => is_flag a = false) ["serve"; "-x"; "8080"]) as H
    by (repeat constructor).
  split; [exact H|].
  exact (parseArgs_ignores_unknown sample_Number "/home/u" "--help" "--port" _ H).
Defined.

Lemma parseArgs_left_to_right_witness :
  dangling ["--no-open"; "--host"; "--open"] = false /\
  parseArgs sample_Number "/home/u" ["node"; "kanban.js"; "--no-open"; "--host"; "--open"]
    = Value {| host := "--open"; port := 3333; open := false;
               cwd := "/home/u"; help := false |} /\
  parseArgs sample_Number "/home/u"
    (["node"; "kanban.js"] ++ ["--no-open"; "--host"; "--open"] ++ ["--open"])
    = Value {| host := "--open"; port := 3333; open := true;
               cwd := "/home/u"; help := false |}.
Proof.
  assert (dangling ["--no-open"; "--host"; "--open"] = false) as H1 by reflexivity.
  assert (parseArgs sample_Number "/home/u"
            ["node"; "kanban.js"; "--no-open"; "--host"; "--open"]
          = Value {| host := "--open"; port := 3333; open := false;
                     cwd := "/home/u"; help := false |}) as H2 by reflexivity.
  split; [exact H1|]. split; [exact H2|].
  exact (proj2 (proj2 (parseArgs_left_to_right sample_Number "/home/u"
                         "node" "kanban.js" _ _ H1 H2))).
Defined.

Lemma main_help_only_prints_witness :
  dangling ["--port"; "8080"] = false /\
  parseArgs sample_Number "/home/u" ["node"; "kanban.js"; "--port"; "8080"]
    = Value {| host := "127.0.0.1"; port := 8080; open := true;
               cwd := "/home/u"; help := false |} /\
  ("-h" = "--help" \/ "-h" = "-h") /\
  snd (main sample_Number "/home/u" (fun p => p)
         (["node"; "kanban.js"] ++ ["--port"; "8080"] ++ ["-h"; "--port"; "0"])
         no_done_board) = no_done_board.
Proof.
  assert (dangling ["--port"; "8080"] = false) as H1 by reflexivity.
  assert (parseArgs sample_Number "/home/u" ["node"; "kanban.js"; "--port"; "8080"]
          = Value {| host := "127.0.0.1"; port := 8080; open := true;
                     cwd := "/home/u"; help := false |}) as H2 by reflexivity.
  assert ("-h" = "--help" \/ "-h" = "-h") as H3 by (right; reflexivity).
  split; [exact H1|]. split; [exact H2|]. split; [exact H3|].
  exact (proj1 (main_help_only_prints sample_Number "/home/u" (fun p => p)
                  "node" "kanban.js" _ "-h" ["--port"; "0"] _ no_done_board
                  H1 H2 H3)).
Defined.

(** ** [ensureTodoDirs] *)

Lemma listed_empty l w : listed {| listable := l; writable := w; entries := ∅ |} = [].
Proof. unfold listed. cbn [entries]. by rewrite map_to_list_empty. Qed.

(** [readTodos] gives for the disk that [ensureTodoDirs] leaves what it
    gives for the disk before. *)
Lemma lane_ensureTodoDirs root dk dir st :
  lane root (snd (ensureTodoDirs dk)) dir st = lane root dk dir st.
Proof.
  unfold ensureTodoDirs, mkdirSync, lane, place_of, set_dir.
  destruct dk as [[| |x1] [| |x2]], dir; cbn; try done.
  all: by rewrite listed_empty.
Qed.


(** X6. Creating the managed directories does not change what is listed:
    on every disk the list route gives, on the disk that [ensureTodoDirs]
    leaves, the outcome it gives on the disk before, a missing directory
    being listed as an empty one. *)
Theorem listing_unchanged_by_ensureTodoDirs root dk :
  fst (run (handle root list_request) (snd (ensureTodoDirs dk)))
  = fst (run (handle root list_request) dk).
Proof.
  unfold run. rewrite !handle_list.
  destruct (api_todos_run root {| fs := snd (ensureTodoDirs dk); log := [] |})
    as (evs & -> & _).
  destruct (api_todos_run root {| fs := dk; log := [] |}) as (evs' & -> & _).
  cbn [fst fs]. by rewrite !lane_ensureTodoDirs.
Qed.

(** ** The request handler as a whole *)

Lemma parse_status_Some to s : parse_status to = Some s -> to = label s.
Proof.
  unfold parse_status.
  destruct (String.eqb_spec to "pending") as [->|_]; [by intros [= <-]|].
  destruct (String.eqb_spec to "done") as [->|_]; [by intros [= <-]|done].
Qed.

(** The outcomes of the move route on a body with the strings [i] and [t]:
    a validation error before any call, or what [api_move_valid]
    describes. *)
Lemma api_move_fields i t w :
  (exists msg,
     api_move (BodyJSON (JFields (Some i) (Some t))) w
       = (Ret (json 400 (Error msg)), w) /\
     msg = match safeBasename i with
           | Some _ => "Invalid destination"
           | None => "Invalid id"
           end /\
     (safeBasename i = None \/ parse_status t = None)) \/
  (exists to, safeBasename i = Some i /\ t = label to).
Proof.
  rewrite api_move_strings.
  destruct (safeBasename i) as [id|] eqn:Hid.
  2: { left. eauto. }
  pose proof Hid as Hid'. apply safeBasename_Some in Hid' as [-> Hpat].
  pose proof Hpat as Hne. apply id_pattern_nonempty, String.eqb_neq in Hne.
  rewrite Hne.
  destruct (parse_status t) as [to|] eqn:Hto.
  2: { left. eauto. }
  right. exists to. split; [done|]. by apply parse_status_Some.
Qed.

Ltac code_ok :=
  cbn; repeat first [apply list_elem_of_here | apply list_elem_of_further].

Lemma api_move_throws b w :
  move_throws b ->
  exists e, api_move b w = (Throw e, w).
Proof.
  intros (data & -> & H). rewrite api_move_coerced.
  destruct H as [->|[H|H]]; [eauto|..].
  - destruct data; try rewrite H; eauto.
  - destruct data; try rewrite H; eauto.
    all: destruct (field_string _ "id"); eauto.
Qed.

(** Every outcome of a request: a response and the disk as it was; an
    exception and the disk as it was; or the response of a move that was
    made, and the disk after a rename that kept the name. *)
Lemma handle_outcomes root req w :
  (~ throws_at req (fs w) /\
   exists resp evs,
     handle root req w = (Ret resp, {| fs := fs w; log := log w ++ evs |}) /\
     code resp ∈ [200; 400; 404; 500]) \/
  (throws_at req (fs w) /\
   exists e evs,
     handle root req w = (Throw e, {| fs := fs w; log := log w ++ evs |})) \/
  (~ throws_at req (fs w) /\
   exists id to src evs,
     safeBasename id = Some id /\
     rename_check (fs w) (other to) id to id = inr src /\
     handle root req w =
       (Ret (json 200 Ok),
        {| fs := put_entry (remove_entry (fs w) (other to) id) to id src;
           log := log w ++ evs |})).
Proof.
  assert (forall resp, code resp ∈ [200; 400; 404; 500] ->
            exists resp' evs,
              (Ret resp, w) = (Ret resp', {| fs := fs w; log := log w ++ evs |}) /\
              code resp' ∈ [200; 400; 404; 500]) as Hsame.
  { intros resp Hc. exists resp, []. rewrite app_nil_r. by destruct w. }
  assert (forall e : error,
            exists e' evs,
              (@Throw response e, w) = (Throw e', {| fs := fs w; log := log w ++ evs |}))
    as Hthrow.
  { intros e. exists e, []. rewrite app_nil_r. by destruct w. }
  unfold handle, throws_at.
  destruct (String.eqb_spec (method req) "GET") as [Hm|Hm];
    destruct (String.eqb_spec (pathname req) "/") as [Hp|Hp]; cbn [andb].
  1: { left. split; [|apply Hsame; code_ok].
       rewrite Hm, Hp. intros [(_ & ? & _)|(? & _)]; discriminate. }
  all: destruct (String.eqb_spec (pathname req) "/api/todos") as [Hp'|Hp'];
    cbn [andb].
  all: try (exfalso; congruence).
  1: { destruct (api_todos_run root w) as (evs & -> & _).
       pose proof (lane_Ret root (fs w) pending pending) as Hlp.
       pose proof (lane_Ret root (fs w) done done) as Hld.
       destruct (lane root (fs w) pending pending) as [p|e].
       - destruct (lane root (fs w) done done) as [d|e].
         + left. split.
           * rewrite Hm. intros [(_ & _ & [] & Hc)|(? & _)]; [| |discriminate].
             -- assert (cannot_list (fs w) pending = false) by (apply Hlp; eauto).
                congruence.
             -- assert (cannot_list (fs w) done = false) by (apply Hld; eauto).
                congruence.
           * eexists _, _. split; [reflexivity|]. code_ok.
         + right. left. split; [|eauto]. left. split; [done|]. split; [done|].
           exists done. destruct (cannot_list (fs w) done); [done|].
           destruct (proj1 Hld eq_refl). discriminate.
       - right. left. split; [|eauto]. left. split; [done|]. split; [done|].
         exists pending. destruct (cannot_list (fs w) pending); [done|].
         destruct (proj1 Hlp eq_refl). discriminate. }
  all: destruct (String.eqb_spec (method req) "POST") as [Hm'|Hm'];
    destruct (String.eqb_spec (pathname req) "/api/move") as [Hp''|Hp''];
    cbn [andb].
  all: try (exfalso; congruence).
  all: try (left; split; [|apply Hsame; code_ok];
            intros [(? & ? & _)|(? & ? & _)]; congruence).
  (* POST /api/move *)
  all: destruct (req_body req) as [msg| |data] eqn:Hbody.
  all: try (left; split; [|apply Hsame; code_ok];
            intros [(? & _)|(_ & _ & (? & ? & _))]; congruence).
  all: rewrite api_move_coerced.
  all: assert (data = JNull \/ data <> JNull) as [->|Hnull]
    by (destruct data; [by left|by right..]).
  all: try (right; left; split; [|apply Hthrow];
            right; split; [done|]; split; [done|]; exists JNull; eauto).
  all: destruct (field_string data "id") as [i|] eqn:Hi.
  all: try (right; left; split; [|destruct data; try done; apply Hthrow];
            right; split; [done|]; split; [done|]; exists data; eauto).
  all: destruct (field_string data "to") as [t|] eqn:Ht.
  all: try (right; left; split; [|destruct data; try done; apply Hthrow];
            right; split; [done|]; split; [done|]; exists data; eauto).
  all: assert (~ ((method req = "GET" /\ pathname req = "/api/todos" /\
                   exists d, cannot_list (fs w) d = true) \/
                  (method req = "POST" /\ pathname req = "/api/move" /\
                   move_throws (BodyJSON data)))) as Hno
    by (intros [(? & _)|(_ & _ & (data' & [= <-] & [?|[?|?]]))]; congruence).
  all: assert (match data with
               | JNull => (@Throw response TypeError, w)
               | _ => api_move (BodyJSON (JFields (Some i) (Some t))) w
               end = api_move (BodyJSON (JFields (Some i) (Some t))) w) as ->
    by (by destruct data).
  all: destruct (api_move_fields i t w) as [(msg & -> & _)|(to & Hid & ->)].
  all: try (left; split; [done|]; apply Hsame; code_ok).
  all: rewrite api_move_valid by done.
  all: destruct (get_entry (fs w) (other to) i) as [n|].
  all: try (left; split; [done|]; eexists _, _; split; [reflexivity|]; code_ok).
  all: destruct (rename_check (fs w) (other to) i to i) as [e|src] eqn:Hr.
  all: try (left; split; [done|]; eexists _, _; split; [reflexivity|]; code_ok).
  all: right; right; split; [done|]; exists i, to, src; eauto.
Qed.

Section CallbackFacts.
Variable URL_pathname : string -> string -> option string.

(** X7. The request callback throws in exactly three cases: [new URL]
    refuses the request target or the [Host] header; the request is a
    listing and a managed path is found that cannot be listed; the request
    is a move and its body is [null] or holds an [id] or a [to] that cannot
    be converted to a string. It has not changed the disk when it throws.
    Every other request is answered, with HTTP 200, 400, 404 or 500. *)
Theorem request_throws_exactly root req w :
  ((exists e, fst (on_request URL_pathname root req w) = Throw e) <->
   match URL_pathname (in_url req) (url_base req) with
   | None => True
   | Some p =>
       throws_at {| method := in_method req; pathname := p;
                    req_body := in_body req |} (fs w)
   end) /\
  (forall e, fst (on_request URL_pathname root req w) = Throw e ->
             fs (snd (on_request URL_pathname root req w)) = fs w) /\
  (forall resp, fst (on_request URL_pathname root req w) = Ret resp ->
                code resp ∈ [200; 400; 404; 500]).
Proof.
  unfold on_request.
  destruct (URL_pathname (in_url req) (url_base req)) as [p|].
  2: { cbn. split; [|split]; [split; eauto|done|done]. }
  set (r := {| method := in_method req; pathname := p; req_body := in_body req |}).
  destruct (handle_outcomes root r w)
    as [(Hno & resp & evs & H & Hc)|[(Hyes & e & evs & H)
       |(Hno & id & to & src & evs & _ & _ & H)]];
    rewrite H; cbn [fst snd fs].
  - split; [|split].
    + split; [by intros [e ?]|done].
    + done.
    + by intros resp' [= <-].
  - split; [|split]; [|done|done]. split; eauto.
  - split; [|split].
    + split; [by intros [e ?]|done].
    + done.
    + intros resp' [= <-]. code_ok.
Qed.

End CallbackFacts.

Lemma dir_names_moved dk id to src :
  rename_check dk (other to) id to id = inr src ->
  board_names (put_entry (remove_entry dk (other to) id) to id src) = board_names dk /\
  forall d, dir_mode (put_entry (remove_entry dk (other to) id) to id src) d
            = dir_mode dk d.
Proof.
  unfold rename_check, board_names, dir_names, dir_mode, put_entry, remove_entry,
    get_dir, place_of.
  destruct dk as [[| |[lp wp ep]] [| |[ld wd ed]]], to; cbn; try done.
  all: destruct (_ !! id) as [n|] eqn:Hn; [|done]; intros _.
  all: split; [|by intros []].
  all: apply elem_of_dom_2 in Hn.
  all: rewrite dom_delete_L, dom_insert_L.
  all: apply set_eq; intros x; rewrite !elem_of_union, elem_of_difference,
         elem_of_singleton.
  all: destruct (decide (x = id)) as [->|]; tauto.
Qed.

(** X8. No request creates, removes or changes the mode of a managed
    directory, and no request changes the set of names on the board: a name
    that is in one of the two directories before a request is in one of them
    after it, and no name appears. *)
Theorem requests_keep_the_board root req w :
  board_names (fs (snd (handle root req w))) = board_names (fs w) /\
  forall d, dir_mode (fs (snd (handle root req w))) d = dir_mode (fs w) d.
Proof.
  destruct (handle_outcomes root req w)
    as [(_ & resp & evs & -> & _)|[(_ & e & evs & ->)
       |(_ & id & to & src & evs & _ & Hr & ->)]];
    cbn [fst snd fs]; try done.
  by apply dir_names_moved.
Qed.

(** X9. The move route sees of a parsed body only two strings, what
    [String(data.id || '')] and [String(data.to || '')] give: a body that is
    not [null] and for which both conversions return is handled as the
    request with those two strings, so that a [to] holding the array
    [["done"]] is read as [done]. When the string for the destination is
    neither [pending] nor [done], which is the case when [to] is missing,
    the request is answered with HTTP 400 before any [fs] call; an id that
    does not pass validation is reported first. *)
Theorem move_rejects_bad_destination root data i t dk :
  data <> JNull ->
  field_string data "id" = Some i ->
  field_string data "to" = Some t ->
  run (handle root {| method := "POST"; pathname := "/api/move";
                      req_body := BodyJSON data |}) dk
    = run (handle root (move_request i t)) dk /\
  (t <> "pending" -> t <> "done" ->
   exists msg,
     run (handle root {| method := "POST"; pathname := "/api/move";
                         req_body := BodyJSON data |}) dk
       = (Ret (json 400 (Error msg)), {| fs := dk; log := [] |}) /\
     msg = match safeBasename i with
           | Some _ => "Invalid destination"
           | None => "Invalid id"
           end) /\
  (match data with
   | JObject members => member "to" members = None
   | _ => True
   end -> t = "").
Proof.
  intros Hnull Hi Ht.
  assert (run (handle root {| method := "POST"; pathname := "/api/move";
                              req_body := BodyJSON data |}) dk
          = run (handle root (move_request i t)) dk) as Heq.
  { unfold run, move_request.
    change (handle root {| method := "POST"; pathname := "/api/move";
                           req_body := BodyJSON data |} {| fs := dk; log := [] |})
      with (api_move (BodyJSON data) {| fs := dk; log := [] |}).
    rewrite handle_move, api_move_coerced, Hi, Ht. by destruct data. }
  split; [exact Heq|]. split.
  - intros Hp Hd. rewrite Heq. unfold run, move_request. rewrite handle_move.
    destruct (api_move_fields i t {| fs := dk; log := [] |})
      as [(msg & -> & -> & _)|(to & _ & ->)]; [eauto|].
    by destruct to.
  - unfold field_string in Ht. destruct data as [| | | | |members]; intros Hno.
    all: try (by injection Ht as <-).
    rewrite Hno in Ht. by injection Ht as <-.
Qed.

Lemma move_rejects_bad_destination_witness :
  JFields (Some "a1.md") (Some "archive") <> JNull /\
  field_string (JFields (Some "a1.md") (Some "archive")) "id" = Some "a1.md" /\
  field_string (JFields (Some "a1.md") (Some "archive")) "to" = Some "archive" /\
  "archive" <> "pending" /\ "archive" <> "done" /\
  exists msg,
    run (handle "/r" (move_request "a1.md" "archive")) sample_board
      = (Ret (json 400 (Error msg)), {| fs := sample_board; log := [] |}) /\
    msg = match safeBasename "a1.md" with
          | Some _ => "Invalid destination"
          | None => "Invalid id"
          end.
Proof.
  assert (JFields (Some "a1.md") (Some "archive") <> JNull) as H0 by discriminate.
  assert (field_string (JFields (Some "a1.md") (Some "archive")) "id"
          = Some "a1.md") as H1 by reflexivity.
  assert (field_string (JFields (Some "a1.md") (Some "archive")) "to"
          = Some "archive") as H2 by reflexivity.
  assert ("archive" <> "pending") as H3 by discriminate.
  assert ("archive" <> "done") as H4 by discriminate.
  split; [exact H0|]. split; [exact H1|]. split; [exact H2|].
  split; [exact H3|]. split; [exact H4|].
  exact (proj1 (proj2 (move_rejects_bad_destination "/r" _ _ _ sample_board
                         H0 H1 H2)) H3 H4).
Defined.

(** A destination given as an array with the one item [done] is not the
    string [done], and the file is moved: the handler compares what
    [String] makes of it.  A body whose [id] is an object with a member
    named [toString] makes the handler throw. *)
Example move_with_array_destination :
  run (handle "/r" {| method := "POST"; pathname := "/api/move";
                      req_body := BodyJSON (JObject [("id", JString "a1.md");
                                                     ("to", JArray [JString "done"])]) |})
      sample_board
  = (Ret (json 200 Ok),
     {| fs := board true [] true [("a1.md", File true md_fix_bug)];
        log := [ExistsSync (AtEntry pending "a1.md");
                RenameSync pending "a1.md" done "a1.md"] |}) /\
  run (handle "/r" {| method := "POST"; pathname := "/api/move";
                      req_body := BodyJSON (JObject [("id", JObject [("toString", JNull)]);
                                                     ("to", JString "done")]) |})
      sample_board
  = (Throw NotPrimitive, {| fs := sample_board; log := [] |}).
Proof. split; vm_compute; reflexivity. Qed.

(** ** Listing after a move *)

(** The lanes of the answer, when both can be read *)
Lemma list_lanes root dk :
  (forall d, cannot_list dk d = false) ->
  exists resp,
    fst (run (handle root list_request) dk) = Ret resp /\
    forall d,
      lane_of (content resp) d =
      match get_dir dk d with
      | Some x => map (fun f => todo_of (dir_path root d) d f (text_of (entries x !! f)))
                      (listed x)
      | None => []
      end.
Proof.
  intros Hall. unfold run. rewrite handle_list.
  destruct (api_todos_run root {| fs := dk; log := [] |}) as (evs & -> & _).
  cbn [fst fs].
  pose proof (Hall pending) as Hp. pose proof (Hall done) as Hd.
  unfold cannot_list in Hp, Hd. unfold lane, get_dir.
  destruct (place_of dk pending) as [| |x1] eqn:E1; [|done|];
    destruct (place_of dk done) as [| |x2] eqn:E2; try done.
  all: try (apply negb_false_iff in Hp; rewrite Hp).
  all: try (apply negb_false_iff in Hd; rewrite Hd).
  all: eexists; split; [reflexivity|]; intros []; by rewrite ?E1, ?E2.
Qed.

(** The list route answers only when both lanes can be read. *)
Lemma list_answered root dk resp :
  fst (run (handle root list_request) dk) = Ret resp ->
  forall d, cannot_list dk d = false.
Proof.
  unfold run. rewrite handle_list.
  destruct (api_todos_run root {| fs := dk; log := [] |}) as (evs & -> & _).
  cbn [fst fs]. intros H d.
  pose proof (lane_Ret root dk pending pending) as Hp.
  pose proof (lane_Ret root dk done done) as Hd.
  destruct (lane root dk pending pending) as [p|e]; [|done].
  destruct (lane root dk done done) as [x|e]; [|done].
  destruct d; [apply Hp|apply Hd]; eauto.
Qed.

Lemma elem_of_lane root d x it :
  it ∈ map (fun f => todo_of (dir_path root d) d f (text_of (entries x !! f))) (listed x)
  <-> exists f n, entries x !! f = Some n /\ is_md f = true /\
                  it = todo_of (dir_path root d) d f (text_of (Some n)).
Proof.
  rewrite list_elem_of_fmap. split.
  - intros (f & -> & [[n Hn] Hmd]%elem_of_listed). exists f, n. by rewrite Hn.
  - intros (f & n & Hn & Hmd & ->). exists f. rewrite Hn. split; [done|].
    apply elem_of_listed. eauto.
Qed.

Lemma move_ok_inv root dk id to w1 :
  safeBasename id = Some id ->
  run (handle root (move_request id (label to))) dk = (Ret (json 200 Ok), w1) ->
  exists src x1 x2,
    get_dir dk (other to) = Some x1 /\ get_dir dk to = Some x2 /\
    entries x1 !! id = Some src /\
    get_dir (fs w1) (other to)
      = Some {| listable := listable x1; writable := writable x1;
                entries := delete id (entries x1) |} /\
    get_dir (fs w1) to
      = Some {| listable := listable x2; writable := writable x2;
                entries := <[id := src]> (entries x2) |}.
Proof.
  intros Hid. run_move.
  destruct (get_entry dk (other to) id) as [n|] eqn:Hn; [|done].
  destruct (rename_check dk (other to) id to id) as [e|src] eqn:Hr; [done|].
  intros [= <-]. cbn [fs].
  pose proof (rename_check_inr _ _ _ _ _ _ Hr) as [Hsrc [x2 Hx2]].
  unfold get_entry in Hsrc.
  destruct (get_dir dk (other to)) as [x1|] eqn:Hx1; [|done]. cbn in Hsrc.
  exists src, x1, x2. split; [done|]. split; [done|]. split; [done|].
  pose proof (other_ne to) as Hne.
  unfold put_entry, remove_entry. rewrite Hx1.
  rewrite (get_dir_set_ne _ (other to) to) by done. rewrite Hx2.
  rewrite get_dir_set_eq. rewrite get_dir_set_ne by done.
  by rewrite get_dir_set_eq.
Qed.

(** X10. A move answered with HTTP 200 leaves each managed path as able
    to be listed as it was. The list route answers on a board when both
    paths can be read, and then it answers too after such a move, and shows
    in the lane
    of the destination the item of the moved file, with the title, area,
    date and files it had and with the new status and path, next to the
    items that lane had under other ids; the lane it came from has the
    items it had under other ids; nothing else changes. *)
Theorem listing_after_move root dk file to w1 :
  safeBasename file = Some file ->
  run (handle root (move_request file (label to))) dk = (Ret (json 200 Ok), w1) ->
  (forall d, cannot_list (fs w1) d = cannot_list dk d) /\
  ((forall d, cannot_list dk d = false) <->
   exists before, fst (run (handle root list_request) dk) = Ret before) /\
  forall before,
    fst (run (handle root list_request) dk) = Ret before ->
    exists after moved,
      fst (run (handle root list_request) (fs w1)) = Ret after /\
      moved ∈ lane_of (content before) (other to) /\ id moved = file /\
      (forall it, it ∈ lane_of (content after) (other to) <->
                  it ∈ lane_of (content before) (other to) /\ id it <> file) /\
      (forall it, it ∈ lane_of (content after) to <->
                  it = relocated root to moved \/
                  (it ∈ lane_of (content before) to /\ id it <> file)).
Proof.
  intros Hid Hmove.
  destruct (move_ok_inv _ _ _ _ _ Hid Hmove)
    as (src & x1 & x2 & Hx1 & Hx2 & Hsrc & Hx1' & Hx2').
  assert (forall d, cannot_list (fs w1) d = cannot_list dk d) as Hsame.
  { intros d. unfold cannot_list, get_dir in *.
    pose proof (other_ne to) as Hne.
    destruct (decide (d = to)) as [->|Hd'].
    - destruct (place_of (fs w1) to) as [| |y]; [done|done|].
      injection Hx2' as ->. cbn [listable].
      by destruct (place_of dk to) as [| |y]; [done|done|injection Hx2 as ->].
    - assert (d = other to) as -> by (destruct d, to; done).
      destruct (place_of (fs w1) (other to)) as [| |y]; [done|done|].
      injection Hx1' as ->. cbn [listable].
      by destruct (place_of dk (other to)) as [| |y]; [done|done|injection Hx1 as ->]. }
  split; [exact Hsame|]. split.
  { split.
    - intros Hall. destruct (list_lanes root dk Hall) as (before & Hb & _). eauto.
    - intros [before Hb]. by apply (list_answered root dk before). }
  intros before Hbefore.
  pose proof (list_answered _ _ _ Hbefore) as Hall.
  destruct (list_lanes root dk Hall) as (before' & Hb & Hlb).
  assert (before' = before) as -> by congruence.
  assert (forall d, cannot_list (fs w1) d = false) as Hall'
    by (intros d; by rewrite Hsame).
  destruct (list_lanes root (fs w1) Hall') as (after & Ha & Hla).
  assert (is_md file = true) as Hmd.
  { apply id_pattern_is_md. by apply safeBasename_Some in Hid as [_ ?]. }
  exists after,
    (todo_of (dir_path root (other to)) (other to) file (text_of (Some src))).
  split; [done|].
  rewrite !Hla, !Hlb, Hx1, Hx2, Hx1', Hx2'.
  split; [apply elem_of_lane; eauto|]. split; [done|]. split.
  - intros it. rewrite !elem_of_lane. cbn [entries]. split.
    + intros (f & n & Hn & Hf & ->).
      apply lookup_delete_Some in Hn as [Hne Hn]. split; [eauto 6|]. done.
    + intros [(f & n & Hn & Hf & ->) Hne]. exists f, n.
      split; [|done]. apply lookup_delete_Some. done.
  - intros it. rewrite !elem_of_lane. cbn [entries]. split.
    + intros (f & n & Hn & Hf & ->).
      apply lookup_insert_Some in Hn as [[<- <-]|[Hne Hn]].
      * by left.
      * right. split; [eauto 6|]. done.
    + intros [->|[(f & n & Hn & Hf & ->) Hne]].
      * exists file, src. split; [apply lookup_insert_eq|]. done.
      * exists f, n. split; [|done]. rewrite lookup_insert_ne; done.
Qed.

Lemma listing_after_move_witness :
  safeBasename "a1.md" = Some "a1.md" /\
  run (handle "/r" (move_request "a1.md" (label done))) sample_board =
    (Ret (json 200 Ok),
     {| fs := board true [] true [("a1.md", File true md_fix_bug)];
        log := [ExistsSync (AtEntry pending "a1.md");
                RenameSync pending "a1.md" done "a1.md"] |}) /\
  exists before after,
    fst (run (handle "/r" list_request) sample_board) = Ret before /\
    fst (run (handle "/r" list_request)
           (board true [] true [("a1.md", File true md_fix_bug)])) = Ret after.
Proof.
  assert (safeBasename "a1.md" = Some "a1.md") as H1 by reflexivity.
  assert (run (handle "/r" (move_request "a1.md" (label done))) sample_board =
    (Ret (json 200 Ok),
     {| fs := board true [] true [("a1.md", File true md_fix_bug)];
        log := [ExistsSync (AtEntry pending "a1.md");
                RenameSync pending "a1.md" done "a1.md"] |})) as H2
    by (vm_compute; reflexivity).
  assert (exists before,
            fst (run (handle "/r" list_request) sample_board) = Ret before)
    as [before H3] by (eexists; vm_compute; reflexivity).
  split; [exact H1|]. split; [exact H2|].
  destruct (listing_after_move "/r" sample_board "a1.md" done _ H1 H2)
    as (_ & _ & Hlist).
  destruct (Hlist before H3) as (after & moved & Ha & _).
  exists before, after. split; [exact H3|exact Ha].
Defined.

(** ** The script of the served page *)

Lemma prefix_spec p s : String.prefix p s = true <-> exists r, s = p ++ r.
Proof.
  revert s. induction p as [|c p IH]; intros s.
  - split; [intros _; by exists s|]. by destruct s.
  - destruct s as [|d s]; simpl.
    + split; [done|]. intros [r Hr]. by rewrite append_cons in Hr.
    + destruct (ascii_dec c d) as [->|Hne].
      * rewrite IH. split; intros [r Hr]; exists r.
        -- by rewrite append_cons, Hr.
        -- rewrite append_cons in Hr. by injection Hr.
      * split; [done|]. intros [r Hr]. rewrite append_cons in Hr. congruence.
Qed.

Lemma includes_unfold hay q :
  Client.includes hay q =
  String.prefix q hay ||
  match hay with "" => false | String _ r => Client.includes r q end.
Proof. by destruct hay. Qed.

(** [includes] finds [q] exactly when it is a substring. *)
Lemma includes_spec hay q :
  Client.includes hay q = true <-> exists p r, hay = p ++ q ++ r.
Proof.
  split.
  - induction hay as [|c hay IH]; rewrite includes_unfold.
    + rewrite orb_false_r. intros [r Hr]%prefix_spec. by exists "", r.
    + intros [[r Hr]%prefix_spec|H]%orb_true_iff.
      * by exists "", r.
      * destruct (IH H) as (p & r & ->). by exists (String c p), r.
  - intros (p & r & ->). induction p as [|c p IH]; rewrite includes_unfold.
    + rewrite append_nil_l.
      replace (String.prefix q (q ++ r)) with true; [done|].
      symmetry. apply prefix_spec. eauto.
    + rewrite append_cons, IH. apply orb_true_r.
Qed.

Lemma includes_trans a b c :
  Client.includes a b = true -> Client.includes b c = true ->
  Client.includes a c = true.
Proof.
  intros (p & r & ->)%includes_spec (p' & r' & ->)%includes_spec.
  apply includes_spec. exists (p ++ p'), (r' ++ r).
  by rewrite !append_assoc.
Qed.

Lemma toLowerCase_app s t :
  Client.toLowerCase (s ++ t) = Client.toLowerCase s ++ Client.toLowerCase t.
Proof.
  induction s as [|c s IH]; [done|].
  rewrite append_cons. simpl. by rewrite IH, append_cons.
Qed.

Lemma dropWhile_fixed p s :
  match s with "" => True | String c _ => p c = false end -> dropWhile p s = s.
Proof. destruct s as [|c s]; simpl; [done|]. by intros ->. Qed.

Lemma dropWhile_head_fixed p s :
  match dropWhile p s with "" => True | String c _ => p c = false end.
Proof.
  destruct (dropWhile p s) as [|c r] eqn:E; [done|]. by eapply dropWhile_head.
Qed.

(** What [trim] removes: white space before and after what it returns. *)
Lemma trim_middle s :
  exists before after,
    s = before ++ trim s ++ after /\
    all_chars is_space before = true /\ all_chars is_space after = true.
Proof.
  unfold trim.
  pose proof (takeWhile_dropWhile is_space s) as H1.
  pose proof (takeWhile_dropWhile is_space (String.rev (dropWhile is_space s))) as H2.
  apply (f_equal String.rev) in H2. rewrite rev_app_distr, rev_involutive in H2.
  exists (takeWhile is_space s),
         (String.rev (takeWhile is_space (String.rev (dropWhile is_space s)))).
  split; [|split].
  - by rewrite H2, H1.
  - apply all_chars_takeWhile.
  - rewrite all_chars_rev. apply all_chars_takeWhile.
Qed.

Lemma trim_idempotent s : trim (trim s) = trim s.
Proof.
  unfold trim.
  set (t := dropWhile is_space s).
  set (u := dropWhile is_space (String.rev t)).
  assert (dropWhile is_space (String.rev u) = String.rev u) as ->.
  { apply dropWhile_fixed.
    pose proof (takeWhile_dropWhile is_space (String.rev t)) as H2. fold u in H2.
    apply (f_equal String.rev) in H2. rewrite rev_app_distr, rev_involutive in H2.
    pose proof (dropWhile_head_fixed is_space s) as Ht. fold t in Ht.
    destruct (String.rev u) as [|c r]; [done|].
    rewrite <- H2 in Ht. by rewrite append_cons in Ht. }
  rewrite rev_involutive. unfold u at 1.
  f_equal. apply dropWhile_fixed, dropWhile_head_fixed.
Qed.

Lemma escape_char_cases c :
  (c = "&"%char /\ Client.escape_char c = "&amp;") \/
  (c = "<"%char /\ Client.escape_char c = "&lt;") \/
  (c = ">"%char /\ Client.escape_char c = "&gt;") \/
  (c = Client.DQ /\ Client.escape_char c = "&quot;") \/
  (c = "'"%char /\ Client.escape_char c = "&#39;") \/
  (Client.escape_char c = String c "" /\ c <> "&"%char /\ is_markup c = false).
Proof.
  unfold Client.escape_char, is_markup.
  destruct (Ascii.eqb_spec c "&") as [->|?]; [by left|].
  destruct (Ascii.eqb_spec c "<") as [->|?]; [by right; left|].
  destruct (Ascii.eqb_spec c ">") as [->|?]; [by right; right; left|].
  destruct (Ascii.eqb_spec c Client.DQ) as [->|?]; [by right; right; right; left|].
  destruct (Ascii.eqb_spec c "'") as [->|?]; [by right; right; right; right; left|].
  by repeat right.
Qed.

Lemma escapeHtml_app s t :
  Client.escapeHtml (s ++ t) = Client.escapeHtml s ++ Client.escapeHtml t.
Proof.
  induction s as [|c s IH]; [done|].
  rewrite append_cons. simpl. by rewrite IH, append_assoc.
Qed.

(** X11. What [escapeHtml] returns holds none of the units that close or
    open markup or an attribute value; escaping a concatenation is
    concatenating the escaped parts; and a string without any of the five
    units replaced comes back as it is. *)
Theorem escapeHtml_no_markup s :
  all_chars (fun c => negb (is_markup c)) (Client.escapeHtml s) = true /\
  (forall t, Client.escapeHtml (s ++ t) = Client.escapeHtml s ++ Client.escapeHtml t) /\
  (all_chars (fun c => negb (is_markup c || Ascii.eqb c "&")) s = true ->
   Client.escapeHtml s = s).
Proof.
  split; [|split].
  - induction s as [|c s IH]; [done|].
    simpl. rewrite all_chars_app, IH, andb_true_r.
    destruct (escape_char_cases c)
      as [[_ ->]|[[_ ->]|[[_ ->]|[[_ ->]|[[_ ->]|(-> & _ & Hc)]]]]]; try done.
    simpl. by rewrite Hc.
  - intros t. apply escapeHtml_app.
  - induction s as [|c s IH]; [done|].
    simpl. intros [Hc Hs]%andb_true_iff. rewrite (IH Hs).
    apply negb_true_iff, orb_false_iff in Hc as [Hm Ha].
    apply Ascii.eqb_neq in Ha.
    destruct (escape_char_cases c)
      as [[-> _]|[[-> _]|[[-> _]|[[-> _]|[[-> _]|(-> & _ & _)]]]]]; done.
Qed.

Lemma escapeHtml_no_markup_witness :
  all_chars (fun c => negb (is_markup c || Ascii.eqb c "&")) "backend api" = true /\
  Client.escapeHtml "backend api" = "backend api".
Proof.
  assert (all_chars (fun c => negb (is_markup c || Ascii.eqb c "&")) "backend api"
          = true) as H by reflexivity.
  split; [exact H|].
  exact (proj2 (proj2 (escapeHtml_no_markup "backend api")) H).
Defined.

(** X12. [escapeHtml] loses nothing: two strings with the same escaped text
    are the same string. *)
Theorem escapeHtml_injective s : forall t,
  Client.escapeHtml s = Client.escapeHtml t -> s = t.
Proof.
  induction s as [|c s IH]; intros [|d t]; simpl.
  - done.
  - destruct (escape_char_cases d)
      as [[_ ->]|[[_ ->]|[[_ ->]|[[_ ->]|[[_ ->]|(-> & _)]]]]];
      rewrite ?append_cons; discriminate.
  - destruct (escape_char_cases c)
      as [[_ ->]|[[_ ->]|[[_ ->]|[[_ ->]|[[_ ->]|(-> & _)]]]]];
      rewrite ?append_cons; discriminate.
  - destruct (escape_char_cases c)
      as [[-> ->]|[[-> ->]|[[-> ->]|[[-> ->]|[[-> ->]|(-> & Hc & _)]]]]];
    destruct (escape_char_cases d)
      as [[-> ->]|[[-> ->]|[[-> ->]|[[-> ->]|[[-> ->]|(-> & Hd & _)]]]]];
    rewrite ?append_cons, ?append_nil_l; intros H;
      try discriminate H; try congruence.
    all: injection H as H; try congruence; f_equal; auto.
Qed.

Lemma escapeHtml_injective_witness :
  Client.escapeHtml "a<b" = Client.escapeHtml "a<b" /\ "a<b" = "a<b".
Proof.
  assert (Client.escapeHtml "a<b" = Client.escapeHtml "a<b") as H by reflexivity.
  split; [exact H|]. exact (escapeHtml_injective "a<b" "a<b" H).
Defined.

(** X13. A card that matches a query matches every query that is a part of
    it, under the same area filter: lengthening the text in the search box
    never adds a card. *)
Theorem match_narrowing todo q1 q2 a :
  Client.includes q1 q2 = true ->
  Client.match_todo todo {| Client.q := q1; Client.f_area := a |} = true ->
  Client.match_todo todo {| Client.q := q2; Client.f_area := a |} = true.
Proof.
  unfold Client.match_todo. cbn [Client.q Client.f_area]. intros Hinc.
  destruct (truthy a && _); [done|].
  destruct (truthy q2) eqn:H2; [|done]. cbn [negb].
  destruct (truthy q1) eqn:H1.
  - cbn [negb]. intros H. by eapply includes_trans.
  - unfold truthy in H1. apply negb_false_iff, String.eqb_eq in H1. subst q1.
    apply includes_spec in Hinc as (p & r & Hq). exfalso.
    destruct p; [|by rewrite append_cons in Hq]. rewrite append_nil_l in Hq.
    destruct q2; [done|]. by rewrite append_cons in Hq.
Qed.

Lemma match_narrowing_witness :
  Client.includes "fix b" "ix" = true /\
  Client.match_todo (todo_of "/r/p" pending "a1.md" md_fix_bug)
    {| Client.q := "fix b"; Client.f_area := "general" |} = true /\
  Client.match_todo (todo_of "/r/p" pending "a1.md" md_fix_bug)
    {| Client.q := "ix"; Client.f_area := "general" |} = true.
Proof.
  assert (Client.includes "fix b" "ix" = true) as H1 by reflexivity.
  assert (Client.match_todo (todo_of "/r/p" pending "a1.md" md_fix_bug)
            {| Client.q := "fix b"; Client.f_area := "general" |} = true) as H2
    by reflexivity.
  split; [exact H1|]. split; [exact H2|].
  exact (match_narrowing _ _ _ _ H1 H2).
Defined.

Lemma includes_middle p s r : Client.includes (p ++ s ++ r) s = true.
Proof. apply includes_spec. eauto. Qed.

(** X14. With no area chosen, the text of an item's own title, of its own
    area or of its own file name in the search box finds the item. *)
Theorem own_text_finds_item todo :
  Client.match_todo todo (Client.filters (title todo) "") = true /\
  Client.match_todo todo (Client.filters (area todo) "") = true /\
  Client.match_todo todo (Client.filters (id todo) "") = true.
Proof.
  assert (forall x before after,
            title todo ++ " " ++ area todo ++ " " ++ id todo = before ++ x ++ after ->
            Client.match_todo todo (Client.filters x "") = true) as Hfind.
  { intros x before after Hx. unfold Client.match_todo, Client.filters.
    cbn [Client.q Client.f_area]. change (truthy (Client.toLowerCase (trim ""))) with false.
    cbn [andb]. destruct (truthy _); [|done]. cbn [negb].
    destruct (trim_middle x) as (b & a & Hmid & _). rewrite Hx.
    rewrite Hmid at 1. rewrite !toLowerCase_app.
    apply includes_spec.
    exists (Client.toLowerCase before ++ Client.toLowerCase b),
           (Client.toLowerCase a ++ Client.toLowerCase after).
    by rewrite !append_assoc. }
  split; [|split].
  - apply (Hfind _ "" (" " ++ area todo ++ " " ++ id todo)). reflexivity.
  - apply (Hfind _ (title todo ++ " ") (" " ++ id todo)).
    by rewrite !append_assoc.
  - apply (Hfind _ (title todo ++ " " ++ area todo ++ " ") "").
    by rewrite append_nil_r, !append_assoc.
Qed.

Lemma todo_of_area_trimmed dirPath st file md :
  area (todo_of dirPath st file md) <> "" /\
  trim (area (todo_of dirPath st file md)) = area (todo_of dirPath st file md).
Proof.
  unfold todo_of. cbn [area]. unfold or_else.
  destruct (String.eqb_spec (trim (field_text (obj_field (frontmatter (parseFrontmatter md)) "area"))) "")
    as [E|E].
  - split; [done|reflexivity].
  - split; [done|apply trim_idempotent].
Qed.

(** X15. Every item the Todo Store builds has an area that is not empty and
    has no white space around it; so the area the page offers for it in the
    area select is that area, and choosing it, with an empty search box,
    shows the item. *)
Theorem area_option_selects_its_items dirPath st file md :
  area (todo_of dirPath st file md) <> "" /\
  trim (area (todo_of dirPath st file md)) = area (todo_of dirPath st file md) /\
  or_else (area (todo_of dirPath st file md)) "general"
    = area (todo_of dirPath st file md) /\
  Client.match_todo (todo_of dirPath st file md)
    (Client.filters "" (or_else (area (todo_of dirPath st file md)) "general")) = true.
Proof.
  destruct (todo_of_area_trimmed dirPath st file md) as [Hne Htrim].
  set (it := todo_of dirPath st file md) in *.
  assert (or_else (area it) "general" = area it) as Hor.
  { unfold or_else. by apply String.eqb_neq in Hne as ->. }
  split; [done|]. split; [done|]. split; [done|].
  rewrite Hor. unfold Client.match_todo, Client.filters.
  cbn [Client.q Client.f_area]. rewrite Htrim, String.eqb_refl.
  by rewrite andb_false_r.
Qed.

Lemma set_add_all (f : TodoItem -> string) l : forall seen,
  NoDup seen ->
  NoDup (fold_left (fun seen t => Client.set_add seen (f t)) l seen) /\
  forall a, a ∈ fold_left (fun seen t => Client.set_add seen (f t)) l seen <->
            a ∈ seen \/ exists t, t ∈ l /\ a = f t.
Proof.
  induction l as [|t l IH]; intros seen Hnd.
  - split; [done|]. intros a. split; [by left|].
    intros [?|(t & Ht & _)]; [done|]. by apply elem_of_nil in Ht.
  - cbn [fold_left].
    assert (NoDup (Client.set_add seen (f t))) as Hnd'.
    { unfold Client.set_add. case_bool_decide; [done|].
      apply NoDup_app. split; [done|]. split; [|apply NoDup_singleton].
      intros x Hx ->%list_elem_of_singleton. done. }
    destruct (IH _ Hnd') as [H1 H2]. split; [done|].
    intros a. rewrite H2. unfold Client.set_add.
    split.
    + intros [Ha|(t' & Ht' & ->)].
      * case_bool_decide; [by left|].
        apply elem_of_app in Ha as [Ha|Ha%list_elem_of_singleton]; [by left|].
        right. exists t. split; [apply list_elem_of_here|done].
      * right. exists t'. split; [by apply list_elem_of_further|done].
    + intros [Ha|(t' & Ht' & ->)].
      * left. case_bool_decide; [done|]. apply elem_of_app. by left.
      * apply elem_of_cons in Ht' as [->|Ht'].
        -- left. case_bool_decide; [done|]. apply elem_of_app. right.
           apply list_elem_of_here.
        -- right. eauto.
Qed.

(** X16. The areas offered in the area select are in order, without
    repetition, and are exactly the areas of the items of both lanes,
    [general] standing for an empty one. *)
Theorem area_options_sorted_distinct pending_items done_items :
  StronglySorted String.le (Client.area_options pending_items done_items) /\
  NoDup (Client.area_options pending_items done_items) /\
  forall a, a ∈ Client.area_options pending_items done_items <->
            exists t, (t ∈ pending_items \/ t ∈ done_items) /\
                      a = or_else (area t) "general".
Proof.
  unfold Client.area_options.
  destruct (set_add_all (fun t => or_else (area t) "general")
              (pending_items ++ done_items) [] (NoDup_nil_2)) as [Hnd Hin].
  split; [apply StronglySorted_merge_sort; apply _|]. split.
  - by rewrite merge_sort_Permutation.
  - intros a. rewrite merge_sort_Permutation, Hin. split.
    + intros [Ha|(t & Ht & ->)]; [by apply elem_of_nil in Ha|].
      exists t. by apply elem_of_app in Ht.
    + intros (t & Ht & ->). right. exists t. split; [by apply elem_of_app|done].
Qed.

(** ** The autopilot: its command line *)

Section AutopilotArgs.
Variable Number : string -> option Q.
Variable process_cwd : string.

Lemma autopilot_loop_cons a tl st :
  Autopilot.parse_loop Number st (a :: tl) =
  Autopilot.parse_step Number a (hd "" tl) tl st
    (fun st' => Autopilot.parse_loop Number st' tl)
    (fun st' => match tl with
                | _ :: tl' => Autopilot.parse_loop Number st' tl'
                | [] => Value st'
                end).
Proof. reflexivity. Qed.

Lemma autopilot_step_bind a next after st skip take
    (k : Autopilot.args * list string -> thrown (Autopilot.args * list string)) :
  a <> "--" ->
  match Autopilot.parse_step Number a next after st skip take with
  | Value x => k x
  | Thrown msg => Thrown msg
  end =
  Autopilot.parse_step Number a next after st
    (fun x => match skip x with Value y => k y | Thrown msg => Thrown msg end)
    (fun x => match take x with Value y => k y | Thrown msg => Thrown msg end).
Proof.
  intros Ha%String.eqb_neq. unfold Autopilot.parse_step. rewrite Ha.
  repeat (match goal with
          | |- context [match Number ?n with _ => _ end] => destruct (Number n)
          | |- context [if ?c then _ else _] => destruct c
          end; try reflexivity).
Qed.

(** A turn calls [take] when the flag reads the next argument and there is
    one, and [skip] otherwise; only [--] looks at what comes after. *)
Lemma autopilot_step_ext a next after after' st skip skip' take take' :
  a <> "--" ->
  (Autopilot.takes_value a && truthy next = false -> forall x, skip x = skip' x) ->
  (Autopilot.takes_value a && truthy next = true -> forall x, take x = take' x) ->
  Autopilot.parse_step Number a next after st skip take
  = Autopilot.parse_step Number a next after' st skip' take'.
Proof.
  intros Ha Hskip Htake. destruct (Autopilot.takes_value a) eqn:Hf.
  - unfold Autopilot.takes_value in Hf. apply bool_decide_eq_true in Hf.
    repeat (apply elem_of_cons in Hf as [->|Hf]); [..|by apply elem_of_nil in Hf].
    all: unfold Autopilot.parse_step; destruct (truthy next);
      try specialize (Htake eq_refl); try specialize (Hskip eq_refl);
      cbn [String.eqb Ascii.eqb Bool.eqb andb orb];
      try (destruct (Number next) as [n|]; [destruct (Qle_bool n 0)|]);
      auto.
  - specialize (Hskip eq_refl).
    unfold Autopilot.takes_value in Hf. apply bool_decide_eq_false in Hf.
    assert (forall f, f ∈ ["--cwd"; "-C"; "--verify"; "--max"; "--max-iterations";
                           "--model"; "-m"] -> String.eqb a f = false) as Hno.
    { intros f Hin. apply String.eqb_neq. by intros ->. }
    unfold Autopilot.parse_step.
    rewrite !Hno by (repeat first [apply list_elem_of_here | apply list_elem_of_further]).
    apply String.eqb_neq in Ha. rewrite Ha. cbn [andb orb].
    repeat (match goal with
            | |- context [if ?c then _ else _] => destruct c
            end; auto).
Qed.

Lemma autopilot_step_no_value a next after st skip take :
  Autopilot.takes_value a = false ->
  Autopilot.parse_step Number a next after st skip take
  = Autopilot.parse_step Number a "" after st skip take.
Proof.
  intros Hf. unfold Autopilot.takes_value in Hf. apply bool_decide_eq_false in Hf.
  assert (forall f, f ∈ ["--cwd"; "-C"; "--verify"; "--max"; "--max-iterations";
                         "--model"; "-m"] -> String.eqb a f = false) as Hno.
  { intros f Hin. apply String.eqb_neq. by intros ->. }
  unfold Autopilot.parse_step.
  by rewrite !Hno by (repeat first [apply list_elem_of_here | apply list_elem_of_further]).
Qed.

(** The loop over [l1 ++ l2] is the loop over [l1] followed by the loop over
    [l2], unless [l1] holds [--] where a flag is read or ends on a flag still
    waiting for its value. *)
Lemma autopilot_loop_app l1 : forall l2 st,
  Autopilot.open_ended l1 = false ->
  Autopilot.parse_loop Number st (l1 ++ l2) =
  match Autopilot.parse_loop Number st l1 with
  | Value st' => Autopilot.parse_loop Number st' l2
  | Thrown msg => Thrown msg
  end.
Proof.
  induction l1 as [|a IH|a v tl IH1 IH2] using parse_loop_induction;
    intros l2 st Hd.
  - done.
  - cbn [Autopilot.open_ended] in Hd.
    destruct (Autopilot.takes_value a) eqn:Ha; [done|].
    destruct (String.eqb_spec a "--") as [|Hdd]; [done|].
    cbn [app]. rewrite !autopilot_loop_cons, autopilot_step_bind by done.
    cbn [hd]. rewrite (autopilot_step_no_value _ (hd "" l2)) by done.
    apply autopilot_step_ext; [done|..]; rewrite Ha; [|discriminate].
    intros _ x. reflexivity.
  - cbn [Autopilot.open_ended] in Hd. cbn [app].
    assert (a <> "--") as Hdd.
    { intros ->. by cbn in Hd. }
    rewrite !autopilot_loop_cons, autopilot_step_bind by done.
    cbn [hd]. apply autopilot_step_ext; [done|..]; intros Hc x.
    + apply (IH1 l2 x). destruct (Autopilot.takes_value a).
      * cbn [andb] in Hc. by rewrite Hc in Hd.
      * apply String.eqb_neq in Hdd. by rewrite Hdd in Hd.
    + apply andb_true_iff in Hc as [Ha Hv]. rewrite Ha, Hv in Hd. by apply IH2.
Qed.

(** X17. Everything after [--] reaches [codexArgs] as it is and is not read
    as a flag, a value or a part of the goal: when the arguments before it
    do not end on a flag still waiting for its value, the result is the one
    for those arguments alone, with [codexArgs] set to what follows [--]. *)
Theorem autopilot_double_dash node script l1 extra :
  Autopilot.open_ended l1 = false ->
  Autopilot.parseArgs Number process_cwd (node :: script :: l1 ++ "--" :: extra) =
  match Autopilot.parseArgs Number process_cwd (node :: script :: l1) with
  | Value out => Value (Autopilot.set_codexArgs out extra)
  | Thrown msg => Thrown msg
  end.
Proof.
  intros Hd. unfold Autopilot.parseArgs.
  change (drop 2 (node :: script :: l1 ++ "--" :: extra)) with (l1 ++ "--" :: extra)%list.
  change (drop 2 (node :: script :: l1)) with l1.
  rewrite autopilot_loop_app by done.
  destruct (Autopilot.parse_loop Number _ l1) as [[out rest]|msg]; [|done].
  rewrite autopilot_loop_cons. unfold Autopilot.parse_step.
  cbn [String.eqb Ascii.eqb Bool.eqb andb orb fst snd].
  unfold Autopilot.with_goal. cbn [fst snd]. by destruct rest.
Qed.

End AutopilotArgs.

Lemma autopilot_double_dash_witness :
  Autopilot.open_ended ["Fix"; "tests"; "--max"; "3"] = false /\
  Autopilot.parseArgs sample_Number "/w"
    (["node"; "autopilot.js"] ++ ["Fix"; "tests"; "--max"; "3"]
       ++ ["--"; "--help"; "--max"; "0"])
  = Value {| Autopilot.cwd := "/w"; Autopilot.verify := None;
             Autopilot.goal := Some "Fix tests"; Autopilot.maxIterations := 3;
             Autopilot.codexArgs := ["--help"; "--max"; "0"];
             Autopilot.dangerous := false; Autopilot.model := None;
             Autopilot.help := false |}.
Proof.
  assert (Autopilot.open_ended ["Fix"; "tests"; "--max"; "3"] = false) as H
    by reflexivity.
  split; [exact H|].
  exact (autopilot_double_dash sample_Number "/w" "node" "autopilot.js"
           ["Fix"; "tests"; "--max"; "3"] ["--help"; "--max"; "0"] H).
Defined.

(** ** The autopilot: its rounds *)

Section AutopilotRounds.
Variable Number : string -> option Q.
Variable process_cwd : string.
Variable path_resolve : string -> string.
Variable existsSync_at : string -> bool.
Variable spawn_codex : nat -> list string -> option Z.
Variable spawn_shell : nat -> string -> string -> option Z * string * string.
Variable ELLIPSIS : string.

Variable a : Autopilot.args.
Variables dir goal verify : string.

Lemma exit_of_cons x y l : exit_of (x :: y :: l) = exit_of (y :: l).
Proof. reflexivity. Qed.

Lemma round_within i :
  Qle_bool (inject_Z (Z.of_nat i)) (Autopilot.maxIterations a) = true ->
  (i <= Z.to_nat (Qfloor (Autopilot.maxIterations a)))%nat.
Proof.
  intros H%Qle_bool_iff%Qfloor_resp_le. rewrite Qfloor_Z in H. lia.
Qed.

Lemma rounds_shape fuel : forall i lastVerify done_runs r,
  (i <= S (Z.to_nat (Qfloor (Autopilot.maxIterations a))))%nat ->
  Autopilot.rounds spawn_codex spawn_shell ELLIPSIS fuel a dir goal verify
    i lastVerify done_runs = Some r ->
  exists new,
    Autopilot.runs r = (rev done_runs ++ new)%list /\
    starts_with_codex new = true /\ stops_in_order new = true /\
    Autopilot.exit_code r = exit_of new /\
    (count_codex new + i <= S (Z.to_nat (Qfloor (Autopilot.maxIterations a))))%nat /\
    Forall (run_as_asked a dir verify) new.
Proof.
  induction fuel as [|fuel IH]; intros i lastVerify done_runs r Hi; [done|].
  cbn [Autopilot.rounds].
  destruct (Qle_bool _ _) eqn:Hle.
  2: { intros [= <-]. exists []. cbn. rewrite app_nil_r. repeat split; done. }
  apply round_within in Hle.
  set (prompt := Autopilot.buildPrompt ELLIPSIS goal verify i lastVerify).
  set (argv := Autopilot.codex_argv dir prompt _ _ _).
  set (status := Autopilot.runCodex spawn_codex i dir prompt _ _ _).
  assert (run_as_asked a dir verify (Autopilot.Codex argv status)) as Hcodex by (by exists prompt).
  destruct (Z.eqb_spec status 0) as [Hs|Hs]; cbn [negb].
  2: { intros [= <-]. exists [Autopilot.Codex argv status]. cbn [Autopilot.runs Autopilot.exit_code].
       split; [done|]. split; [done|]. split.
       { cbn. by apply Z.eqb_neq in Hs as ->. }
       split; [done|]. split; [cbn; lia|]. by repeat constructor. }
  set (last := Autopilot.runShell spawn_shell i verify dir).
  assert (run_as_asked a dir verify (Autopilot.Verify verify dir (Autopilot.code last))) as Hverify by done.
  destruct (Z.eqb_spec (Autopilot.code last) 0) as [Hv|Hv].
  { intros [= <-].
    exists [Autopilot.Codex argv status; Autopilot.Verify verify dir (Autopilot.code last)].
    cbn [Autopilot.runs Autopilot.exit_code].
    split; [cbn; by rewrite <- app_assoc|]. split; [done|]. split.
    { cbn. by rewrite Hs, Hv. }
    split; [cbn; by rewrite Hv|]. split; [cbn; lia|]. by repeat constructor. }
  intros Hrec. apply IH in Hrec as (new & Hruns & Hstart & Horder & Hexit & Hcount & Hall);
    [|lia].
  exists (Autopilot.Codex argv status
          :: Autopilot.Verify verify dir (Autopilot.code last) :: new).
  split; [rewrite Hruns; cbn; by rewrite <- !app_assoc|]. split; [done|]. split.
  { cbn [stops_in_order]. rewrite Hs. cbn.
    apply Z.eqb_neq in Hv. rewrite Hv.
    destruct new as [|[]]; done. }
  split.
  { rewrite Hexit. destruct new as [|x new].
    - cbn. by apply Z.eqb_neq in Hv as ->.
    - by rewrite !exit_of_cons. }
  split; [unfold count_codex in *; cbn; lia|]. by repeat constructor.
Qed.

Lemma rounds_enough fuel : forall i lastVerify done_runs,
  (S (Z.to_nat (Qfloor (Autopilot.maxIterations a))) - i < fuel)%nat ->
  exists r,
    Autopilot.rounds spawn_codex spawn_shell ELLIPSIS fuel a dir goal verify
      i lastVerify done_runs = Some r.
Proof.
  induction fuel as [|fuel IH]; intros i lastVerify done_runs Hfuel; [lia|].
  cbn [Autopilot.rounds].
  destruct (Qle_bool _ _) eqn:Hle; [|eauto].
  apply round_within in Hle.
  destruct (negb _); [eauto|]. destruct (_ =? _)%Z; [eauto|].
  apply IH. lia.
Qed.

End AutopilotRounds.

Section AutopilotMain.
Variable Number : string -> option Q.
Variable process_cwd : string.
Variable path_resolve : string -> string.
Variable existsSync_at : string -> bool.
Variable spawn_codex : nat -> list string -> option Z.
Variable spawn_shell : nat -> string -> string -> option Z * string * string.
Variable ELLIPSIS : string.

(** A property of the options that every assignment of the loop keeps
    holds of what the loop returns. *)
Lemma autopilot_loop_invariant (I : Autopilot.args -> Prop) :
  (forall o v, I o -> v <> "" -> I (Autopilot.set_cwd o v)) ->
  (forall o v, I o -> v <> "" -> I (Autopilot.set_verify o v)) ->
  (forall o n, I o -> (0 < n)%Q -> I (Autopilot.set_maxIterations o n)) ->
  (forall o v, I o -> v <> "" -> I (Autopilot.set_model o v)) ->
  (forall o, I o -> I (Autopilot.set_dangerous o)) ->
  (forall o, I o -> I (Autopilot.set_help o)) ->
  (forall o l, I o -> I (Autopilot.set_codexArgs o l)) ->
  forall l st st', I (fst st) -> Autopilot.parse_loop Number st l = Value st' -> I (fst st').
Proof.
  intros Hcwd Hverify Hmax Hmodel Hdanger Hhelp Hcodex.
  assert (forall a next after st skip take st',
            I (fst st) ->
            (forall x y, I (fst x) -> skip x = Value y -> I (fst y)) ->
            (forall x y, next <> "" -> I (fst x) -> take x = Value y -> I (fst y)) ->
            Autopilot.parse_step Number a next after st skip take = Value st' ->
            I (fst st')) as Hstep.
  { intros a0 next after st skip take st' Hst Hskip Htake.
    unfold Autopilot.parse_step.
    destruct (truthy next) eqn:Hv; rewrite ?andb_true_r, ?andb_false_r.
    - apply truthy_nonempty in Hv. intros Hres. revert Hres.
      destruct (_ || _).
      { intros Hres. eapply Htake; [exact Hv| |exact Hres]. cbn [fst]. auto. }
      destruct (String.eqb a0 "--verify").
      { intros Hres. eapply Htake; [exact Hv| |exact Hres]. cbn [fst]. auto. }
      destruct (_ || _).
      { destruct (Number next) as [n|]; [|done].
        destruct (Qle_bool n 0) eqn:Hn; [done|].
        intros Hres. eapply Htake; [exact Hv| |exact Hres]. cbn [fst].
        apply Hmax; [done|].
        apply Qnot_le_lt. intros Hle. apply Qle_bool_iff in Hle. congruence. }
      destruct (_ || _).
      { intros Hres. eapply Htake; [exact Hv| |exact Hres]. cbn [fst]. auto. }
      destruct (String.eqb a0 "--dangerous").
      { intros Hres. eapply Hskip; [|exact Hres]. cbn [fst]. auto. }
      destruct (_ || _).
      { intros Hres. eapply Hskip; [|exact Hres]. cbn [fst]. auto. }
      destruct (String.eqb a0 "--").
      { intros [= <-]. cbn [fst]. auto. }
      intros Hres. eapply Hskip; [|exact Hres]. cbn [fst]. auto.
    - destruct (String.eqb a0 "--dangerous").
      { intros Hres. eapply Hskip; [|exact Hres]. cbn [fst]. auto. }
      destruct (_ || _).
      { intros Hres. eapply Hskip; [|exact Hres]. cbn [fst]. auto. }
      destruct (String.eqb a0 "--").
      { intros [= <-]. cbn [fst]. auto. }
      intros Hres. eapply Hskip; [|exact Hres]. cbn [fst]. auto. }
  induction l as [|a0 IH|a0 v tl IH1 IH2] using parse_loop_induction;
    intros st st' Hst.
  - by intros [= <-].
  - rewrite autopilot_loop_cons. apply Hstep; [done|..].
    + intros x y Hx. by apply IH.
    + intros x y _ Hx [= <-]. done.
  - rewrite autopilot_loop_cons. apply Hstep; [done|..].
    + intros x y Hx. by apply IH1.
    + intros x y _ Hx. by apply IH2.
Qed.

(** The number of rounds that [parseArgs] returns is positive. *)
Lemma autopilot_max_positive argv a :
  Autopilot.parseArgs Number process_cwd argv = Value a ->
  (0 < Autopilot.maxIterations a)%Q.
Proof.
  unfold Autopilot.parseArgs.
  destruct (Autopilot.parse_loop Number _ _) as [st|msg] eqn:Hloop; [|done].
  intros [= <-].
  assert ((0 < Autopilot.maxIterations (fst st))%Q) as Hmax.
  { revert Hloop.
    apply (autopilot_loop_invariant (fun o => (0 < Autopilot.maxIterations o)%Q));
      try done. }
  unfold Autopilot.with_goal. by destruct (snd st).
Qed.

(** X18. When the autopilot's [parseArgs] returns, the number of rounds
    allowed is finite and positive, a verification command or a model given
    on the command line is not empty, and the goal, when there is one, has
    no white space around it. *)
Theorem autopilot_parseArgs_sound argv a :
  Autopilot.parseArgs Number process_cwd argv = Value a ->
  (0 < Autopilot.maxIterations a)%Q /\
  Autopilot.verify a <> Some "" /\ Autopilot.model a <> Some "" /\
  (forall g, Autopilot.goal a = Some g -> trim g = g).
Proof.
  unfold Autopilot.parseArgs.
  destruct (Autopilot.parse_loop Number _ _) as [st|msg] eqn:Hloop; [|done].
  intros [= <-].
  assert ((0 < Autopilot.maxIterations (fst st))%Q /\
          Autopilot.verify (fst st) <> Some "" /\
          Autopilot.model (fst st) <> Some "" /\
          Autopilot.goal (fst st) = None) as (Hmax & Hv & Hm & Hg).
  { revert Hloop.
    apply (autopilot_loop_invariant
             (fun o => (0 < Autopilot.maxIterations o)%Q /\
                       Autopilot.verify o <> Some "" /\
                       Autopilot.model o <> Some "" /\
                       Autopilot.goal o = None));
      try (intros o v (? & ? & ? & ?) Hne; cbn; repeat split; congruence);
      try (intros o (? & ? & ? & ?); cbn; repeat split; congruence).
    - intros o l (? & ? & ? & ?). cbn. repeat split; congruence.
    - cbn. repeat split; congruence || reflexivity. }
  unfold Autopilot.with_goal. destruct (snd st) as [|x rest]; cbn.
  - repeat split; try done. intros g. by rewrite Hg.
  - repeat split; try done. intros g [= <-]. apply trim_idempotent.
Qed.

(** X19. Codex is never started for a command line with a help flag or
    without a goal, nor when no verification command was given and the
    working directory has no [package.json]: [main] runs nothing, and the
    exit code is 2, or 0 for a help flag with a goal. *)
Theorem autopilot_runs_nothing argv a :
  Autopilot.parseArgs Number process_cwd argv = Value a ->
  Autopilot.help a = true \/ Autopilot.goal a = None \/
  Autopilot.goal a = Some "" \/
  (Autopilot.verify a = None /\
   existsSync_at (path_join (path_resolve (Autopilot.cwd a)) "package.json") = false) ->
  exists c,
    Autopilot.main Number process_cwd path_resolve existsSync_at spawn_codex
      spawn_shell ELLIPSIS argv
    = Value (Some {| Autopilot.exit_code := c; Autopilot.runs := [] |}) /\
    (c = 0%Z \/ c = 2%Z) /\
    (c = 0%Z <-> Autopilot.help a = true /\ exists g, Autopilot.goal a = Some g /\ g <> "").
Proof.
  intros Hparse Hcase. unfold Autopilot.main. rewrite Hparse.
  destruct (Autopilot.goal a) as [g|] eqn:Hg.
  2: { rewrite orb_true_r. eexists. split; [reflexivity|]. split; [by right|].
       split; [done|]. by intros (_ & g & ? & _). }
  destruct (truthy g) eqn:Htg; cbn [negb].
  2: { rewrite orb_true_r. eexists. split; [reflexivity|]. split; [by right|].
       split; [done|]. intros (_ & g' & [= <-] & Hne).
       unfold truthy in Htg. by apply negb_false_iff, String.eqb_eq in Htg. }
  apply truthy_nonempty in Htg. rewrite orb_false_r.
  destruct (Autopilot.help a) eqn:Hh.
  { eexists. split; [reflexivity|]. split; [by left|]. split; eauto. }
  destruct Hcase as [?|[?|[[= ->]|[Hv Hpkg]]]]; try done.
  rewrite Hv. unfold Autopilot.detectVerifyCommand. rewrite Hpkg. cbn [negb].
  eexists. split; [reflexivity|]. split; [by right|].
  split; [done|]. by intros [? _].
Qed.

(** X20. With a goal and a verification command, and fewer than 2^53 rounds
    allowed (the counter of the loop is then exact), [main] ends. Of the processes it ran, the first is a codex; a
    codex that ends with status 0 is followed by the verification and any
    other one by nothing; a verification that passes is followed by nothing
    and one that fails by a codex or by nothing; the verification is always
    the command given, run in the working directory. The exit code is the
    status of the codex run last, 0 after a verification that passed, and 1
    when the loop gave up; and codex is run at most as many times as the
    rounds allowed, rounded down. *)
Theorem autopilot_rounds argv a g v :
  Autopilot.parseArgs Number process_cwd argv = Value a ->
  Autopilot.help a = false ->
  Autopilot.goal a = Some g -> g <> "" ->
  Autopilot.verify a = Some v -> v <> "" ->
  (Autopilot.maxIterations a < 9007199254740992)%Q ->
  exists r,
    Autopilot.main Number process_cwd path_resolve existsSync_at spawn_codex
      spawn_shell ELLIPSIS argv = Value (Some r) /\
    starts_with_codex (Autopilot.runs r) = true /\
    stops_in_order (Autopilot.runs r) = true /\
    Forall (run_as_asked a (path_resolve (Autopilot.cwd a)) v) (Autopilot.runs r) /\
    Autopilot.exit_code r = exit_of (Autopilot.runs r) /\
    (Z.of_nat (count_codex (Autopilot.runs r)) <= Qfloor (Autopilot.maxIterations a))%Z.
Proof.
  intros Hparse Hh Hg Hgne Hv Hvne _.
  assert (0 <= Qfloor (Autopilot.maxIterations a))%Z as Hfloor.
  { apply autopilot_max_positive in Hparse.
    change 0%Z with (Qfloor 0). by apply Qfloor_resp_le, Qlt_le_weak. }
  assert (truthy g = true) as Htg.
  { unfold truthy. by apply negb_true_iff, String.eqb_neq. }
  assert (truthy v = true) as Htv.
  { unfold truthy. by apply negb_true_iff, String.eqb_neq. }
  unfold Autopilot.main. rewrite Hparse, Hg, Hh, Hv. cbv zeta.
  rewrite Htg, Htv. cbn [negb orb]. rewrite Htv. cbn [negb].
  destruct (rounds_enough spawn_codex spawn_shell ELLIPSIS a
              (path_resolve (Autopilot.cwd a)) g v
              (S (Z.to_nat (Qfloor (Autopilot.maxIterations a)))) 1 None [])
    as [r Hr]; [lia|].
  change (default "" (Some g)) with g. rewrite Hr.
  exists r. split; [done|].
  apply rounds_shape in Hr as (new & Hruns & Hstart & Horder & Hexit & Hcount & Hall);
    [|lia].
  cbn [rev app] in Hruns. rewrite Hruns.
  repeat split; try done. lia.
Qed.

End AutopilotMain.

Lemma autopilot_parseArgs_sound_witness :
  Autopilot.parseArgs sample_Number "/w" autopilot_sample_argv
  = Value autopilot_sample_args /\
  (0 < Autopilot.maxIterations autopilot_sample_args)%Q /\
  Autopilot.verify autopilot_sample_args <> Some "" /\
  Autopilot.model autopilot_sample_args <> Some "" /\
  (forall g, Autopilot.goal autopilot_sample_args = Some g -> trim g = g).
Proof.
  assert (Autopilot.parseArgs sample_Number "/w" autopilot_sample_argv
          = Value autopilot_sample_args) as H by reflexivity.
  split; [exact H|].
  exact (autopilot_parseArgs_sound sample_Number "/w" autopilot_sample_argv
           autopilot_sample_args H).
Defined.

Lemma autopilot_runs_nothing_witness :
  Autopilot.parseArgs sample_Number "/w" ["node"; "autopilot.js"; "Fix"]
  = Value autopilot_bare_args /\
  exists c,
    Autopilot.main sample_Number "/w" (fun p => p) (fun _ => false) sample_codex
      sample_shell "..." ["node"; "autopilot.js"; "Fix"]
    = Value (Some {| Autopilot.exit_code := c; Autopilot.runs := [] |}) /\
    (c = 0%Z \/ c = 2%Z) /\
    (c = 0%Z <-> Autopilot.help autopilot_bare_args = true /\
                 exists g, Autopilot.goal autopilot_bare_args = Some g /\ g <> "").
Proof.
  assert (Autopilot.parseArgs sample_Number "/w" ["node"; "autopilot.js"; "Fix"]
          = Value autopilot_bare_args) as H by reflexivity.
  split; [exact H|].
  apply (autopilot_runs_nothing sample_Number "/w" (fun p => p) (fun _ => false)
           sample_codex sample_shell "..." ["node"; "autopilot.js"; "Fix"]
           autopilot_bare_args H).
  right. right. right. split; reflexivity.
Defined.

Lemma autopilot_rounds_witness :
  Autopilot.parseArgs sample_Number "/w" autopilot_sample_argv
  = Value autopilot_sample_args /\
  exists r,
    Autopilot.main sample_Number "/w" (fun p => p) (fun _ => false) sample_codex
      sample_shell "..." autopilot_sample_argv = Value (Some r) /\
    starts_with_codex (Autopilot.runs r) = true /\
    stops_in_order (Autopilot.runs r) = true /\
    Forall (run_as_asked autopilot_sample_args "/w" "npm test") (Autopilot.runs r) /\
    Autopilot.exit_code r = exit_of (Autopilot.runs r) /\
    (Z.of_nat (count_codex (Autopilot.runs r)) <= 3)%Z.
Proof.
  assert (Autopilot.parseArgs sample_Number "/w" autopilot_sample_argv
          = Value autopilot_sample_args) as H by reflexivity.
  split; [exact H|].
  apply (autopilot_rounds sample_Number "/w" (fun p => p) (fun _ => false)
           sample_codex sample_shell "..." autopilot_sample_argv
           autopilot_sample_args "Fix tests" "npm test" H);
    reflexivity || discriminate.
Defined.
